(** * crapremoval: the scanner and cleaner of [crapremoval.py]

    A shallow embedding of [src/crapremoval.py] (class [ScannerAndCleaner]
    and the [One_path_item] settings record) together with the properties
    its specification states about it.

    Conventions of the embedding.
    - Python [bytes] values are [string]s of 8-bit characters, and Python
      [str] values are [string]s of code points below 256.  Names of files
      and outputs of tools are taken in the ASCII fragment, on which
      [decode('utf-8')] is the identity; the [UnicodeDecodeError] of other
      bytes is not modelled.
    - Python numbers ([int] sizes, [float] modification times) are the
      rationals they denote, in [Q]; Python compares [int] with [float]
      exactly, and so does [Qlt].  Float arithmetic is exact here: its
      rounding and the [OverflowError] of an [int] too large for a float
      are not modelled, nor is the limit the interpreter puts on the
      number of digits [int] reads and [str] writes (4300 by default).
    - Exceptions that no [except] clause of the program catches are the
      [Raise] results of the error monad [result]; exceptions the program
      catches ([FileNotFoundError], [CalledProcessError], [KeyError],
      [JSONDecodeError]) are the [None] answers of the environment.
    - The file system and the external tools ([du], [find], [glob]) are an
      environment record [World]: the program only sees their answers.
      The clock is a parameter [now], read once for a call of [cleaner].
    - The files of the data directory ([watchdirs.json], the timer file
      and [report.log]) are the record [Disk].  They change by the writes
      of the program only: a cleanup target that reaches into the data
      directory, and any other process that writes there, are outside the
      model.
    - The processes started and forgotten ([rm -rf], [notify-send]) are
      recorded by their arguments; the texts of the reports are kept as
      data, without the date line and the formatting of sizes in MiB. *)

From Stdlib Require Import ZArith QArith Lqa Lia List String Ascii Bool.
From Stdlib Require Import Permutation Sorted DecimalString DecimalPos.
Import ListNotations.

Local Open Scope string_scope.
Local Open Scope Z_scope.
Local Open Scope list_scope.

(* ================================================================= *)
(** ** Python primitives the program relies on *)

Module Py.

(** Exceptions that escape the program. *)
Inductive exn : Type := ValueError | TypeError | IndexError.

Inductive result (A : Type) : Type :=
| Ok (a : A)
| Raise (e : exn).
Arguments Ok {A} a.
Arguments Raise {A} e.

Definition bind {A B : Type} (m : result A) (k : A -> result B) : result B :=
  match m with
  | Ok a => k a
  | Raise e => Raise e
  end.

Definition is_digit (c : ascii) : bool :=
  let n := nat_of_ascii c in (48 <=? n)%nat && (n <=? 57)%nat.

Definition digit_val (c : ascii) : Z := Z.of_nat (nat_of_ascii c) - 48.

(** The whitespace [bytes.split()] splits at: tab, LF, VT, FF, CR and
    space. *)
Definition is_space (c : ascii) : bool :=
  let n := nat_of_ascii c in ((9 <=? n)%nat && (n <=? 13)%nat) || (n =? 32)%nat.

(** The whitespace [int] strips from a [str]: the above, and among the
    code points below 256 also NEL (133) and the no-break space (160). *)
Definition is_space_str (c : ascii) : bool :=
  let n := nat_of_ascii c in is_space c || (n =? 133)%nat || (n =? 160)%nat.

Fixpoint lstrip (cs : list ascii) : list ascii :=
  match cs with
  | c :: r => if is_space_str c then lstrip r else cs
  | [] => []
  end.

Definition strip (cs : list ascii) : list ascii := rev (lstrip (rev (lstrip cs))).

(** Digits of a decimal literal, single underscores allowed between
    digits; [prev] tells whether the previous character was a digit. *)
Fixpoint int_digits (cs : list ascii) (acc : Z) (prev : bool) : option Z :=
  match cs with
  | [] => if prev then Some acc else None
  | c :: r =>
      if is_digit c then int_digits r (10 * acc + digit_val c) true
      else if Ascii.eqb c "_" && prev then int_digits r acc false
      else None
  end.

(** [int(s)] for a [str] in base 10; [None] is [ValueError].  Integers
    are unbounded: the limit the interpreter may put on the number of
    digits is not modelled. *)
Definition int (s : string) : option Z :=
  match strip (list_ascii_of_string s) with
  | "-"%char :: ds => option_map Z.opp (int_digits ds 0 false)
  | "+"%char :: ds => int_digits ds 0 false
  | ds => int_digits ds 0 false
  end.

(** [str(n)] for an [int]. *)
Definition str (n : Z) : string := NilZero.string_of_int (Z.to_int n).

(** The characters [str.isdigit] takes for digits: among the code points
    below 256 the ten decimal digits and the superscripts two (178),
    three (179) and one (185), which [int] does not read. *)
Definition is_digit_str (c : ascii) : bool :=
  let n := nat_of_ascii c in
  is_digit c || (n =? 178)%nat || (n =? 179)%nat || (n =? 185)%nat.

(** [s.isdigit()]: at least one character and all of them digits. *)
Definition isdigit (s : string) : bool :=
  match list_ascii_of_string s with
  | [] => false
  | cs => forallb is_digit_str cs
  end.

(** [s.split(sep)] for a one-character separator: never empty. *)
Fixpoint split (sep : ascii) (s : string) : list string :=
  match s with
  | EmptyString => [EmptyString]
  | String c r =>
      if Ascii.eqb c sep then EmptyString :: split sep r
      else match split sep r with
           | h :: t => String c h :: t
           | [] => [String c EmptyString]
           end
  end.

(** [b.split()]: the maximal runs of non-whitespace. *)
Fixpoint split_ws (s : string) : list string :=
  match s with
  | EmptyString => []
  | String c r =>
      if is_space c then split_ws r
      else match r with
           | EmptyString => [String c EmptyString]
           | String d _ =>
               if is_space d then String c EmptyString :: split_ws r
               else match split_ws r with
                    | h :: t => String c h :: t
                    | [] => [String c EmptyString]
                    end
           end
  end.

(** [sub in s] for two [str]. *)
Fixpoint contains (sub s : string) : bool :=
  String.prefix sub s ||
  match s with
  | EmptyString => false
  | String _ r => contains sub r
  end.

Definition Qltb (x y : Q) : bool := negb (Qle_bool y x).

(** [list.sort(key=..., reverse=...)]: the stable sort.  A stable sort has
    one possible output, so insertion from the right stands for timsort:
    an element goes before the first later element that is not strictly
    ahead of it. *)
Section Sort.
Context {A K : Type} (key : A -> K) (ltb : K -> K -> bool).

Definition ahead (reverse : bool) (y x : A) : bool :=
  if reverse then ltb (key x) (key y) else ltb (key y) (key x).

Fixpoint insert (reverse : bool) (x : A) (l : list A) : list A :=
  match l with
  | [] => [x]
  | y :: l' => if ahead reverse y x then y :: insert reverse x l' else x :: l
  end.

Definition sort (reverse : bool) (l : list A) : list A :=
  fold_right (insert reverse) [] l.
End Sort.

(** [dict]: insertion ordered, one binding per key. *)
Section Dict.
Context {V : Type}.

Fixpoint dict_set (k : string) (v : V) (d : list (string * V)) : list (string * V) :=
  match d with
  | [] => [(k, v)]
  | (k', v') :: r =>
      if String.eqb k k' then (k, v) :: r else (k', v') :: dict_set k v r
  end.

Definition dict (l : list (string * V)) : list (string * V) :=
  fold_left (fun d kv => dict_set (fst kv) (snd kv) d) l [].

Fixpoint dict_get (k : string) (d : list (string * V)) : option V :=
  match d with
  | [] => None
  | (k', v) :: r => if String.eqb k k' then Some v else dict_get k r
  end.

Definition keys (d : list (string * V)) : list string := map fst d.
End Dict.

(** Sets of strings are duplicate-free lists; the order in which Python
    iterates over a set is not modelled. *)
Definition mem (s : string) (l : list string) : bool := existsb (String.eqb s) l.

Fixpoint set_of (l : list string) : list string :=
  match l with
  | [] => []
  | x :: r => let s := set_of r in if mem x s then s else x :: s
  end.

End Py.

Import Py.

Notation "x <- m ;; k" := (Py.bind m (fun x => k))
  (at level 61, m at next level, right associativity).

(* ================================================================= *)
(** ** Settings and environment *)

(** The settings of one directory to clean (dataclass [One_path_item]);
    [path] is the path after [expanduser]. *)
Record One_path_item : Type := {
  path : string;
  type_to_del : string;      (* f: files only, anything else: files and dirs *)
  num_to_keep : Z;
  remove_older : option Z;
  ignore : list string
}.

(** What the program can observe of the machine at one moment.
    - [is_file p] is [Path(p).is_file()];
    - [stat p] is [(st_size, st_mtime)] of [Path(p).stat()], [None] when it
      raises [FileNotFoundError];
    - [du p] is the output of [check_output] on [du -shb p], [None] when it
      raises [CalledProcessError];
    - [find p] is the output of [check_output] on
      [find p -type f -printf] with one line per file, [None] likewise;
    - [glob p] is [Path(p).glob('*')], as path strings;
    - [expanduser d] is [str(Path(d).expanduser())]: the string of the
      path made of [d], normalised and with the home directory put in. *)
Record World : Type := {
  is_file : string -> bool;
  stat : string -> option (Z * Q);
  du : string -> option string;
  find : string -> option string;
  glob : string -> list string;
  expanduser : string -> string
}.

(** A pair of a path string and the stat value asked for. *)
Definition row : Type := (string * Q)%type.

(* ================================================================= *)
(** ** [_add_stat_properties] *)

Definition LF : ascii := "010"%char.

(** The body of the [try] for one [filepath]: [Ok (Some r)] appends [r],
    [Ok None] is an entry skipped (a caught exception, or a directory
    without files in age mode), [Raise] an exception that escapes. *)
Definition stat_of (w : World) (stattype filepath : string) : result (option row) :=
  if is_file w filepath then
    match stat w filepath with
    | Some (st_size, st_mtime) =>
        Ok (Some (filepath, if String.eqb stattype "size" then inject_Z st_size else st_mtime))
    | None => Ok None
    end
  else if String.eqb stattype "size" then
    match du w filepath with
    | Some out =>
        match split_ws out with
        | tok :: _ =>
            match Py.int tok with
            | Some n => Ok (Some (filepath, inject_Z n))
            | None => Raise ValueError
            end
        | [] => Raise IndexError
        end
    | None => Ok None
    end
  else
    match find w filepath with
    | Some out =>
        let all_dir_files := split LF out in
        if (1 <? List.length all_dir_files)%nat then
          let all_dir_files := sort (fun s : string => s) String.ltb true all_dir_files in
          match Py.int (hd EmptyString (split "." (nth 1 all_dir_files EmptyString))) with
          | Some n => Ok (Some (filepath, inject_Z n))
          | None => Raise ValueError
          end
        else Ok None
    | None => Ok None
    end.

(** The [for filepath in filepaths] loop; [acc] is the list [result]. *)
Fixpoint stat_loop (w : World) (stattype : string) (filepaths : list string)
    (acc : list row) : result (list row) :=
  match filepaths with
  | [] => Ok acc
  | filepath :: rest =>
      r <- stat_of w stattype filepath ;;
      stat_loop w stattype rest (match r with Some x => acc ++ [x] | None => acc end)
  end.

Definition _add_stat_properties (w : World) (filepaths : list string)
    (stattype : string) (sort sort_reversed : bool) : result (list row) :=
  rows <- stat_loop w stattype filepaths [] ;;
  Ok (if sort then Py.sort (@snd string Q) Qltb sort_reversed rows else rows).

(* ================================================================= *)
(** ** Persistent files and the object *)

(** The value [json.loads] returns. *)
#[local] Set Warnings "-register-all".
Inductive json : Type :=
| JNull
| JBool (b : bool)
| JNum (q : Q)
| JStr (s : string)
| JArr (l : list json)
| JObj (d : list (string * json)).

(** The content of [watchdirs.json]: missing, text that [json.loads]
    rejects with [JSONDecodeError], or text it reads as [j]. *)
Inductive stored : Type :=
| NoFile
| Garbage
| Json (j : json).

(** The four texts [report_scan] can be; [NewFound d] is the header line
    followed by [json.dumps(d, indent=2)]. *)
Inductive scan_report : Type :=
| NewFound (new_content : list (string * json))
| NoNew
| WasCorrupted
| WasNotFound.

(** [Diff d] is a size difference, [Dash] the string of one hyphen
    that stands for a path that does not exist anymore. *)
Inductive position : Type :=
| Diff (d : Q)
| Dash.

(** A section appended to [report.log]; the date line and the MiB
    formatting of the numbers are left out. *)
Inductive section : Type :=
| ScanSection (report_scan : scan_report) (ntop : Z) (top_size_things : list row)
| CleanSection (all_positions : list (string * position)) (total : Q).

(** A piece appended to [notify_report]. *)
Inductive notice : Type :=
| ScanNotice (report_scan : scan_report)
| CleanNotice (total : Q).

Record Disk : Type := {
  watchdirs_file : stored;
  timer_file : option string;
  report_file : list section
}.

Record ScannerAndCleaner : Type := {
  ntopfiles : Z;
  dirstoclean : list One_path_item;
  watchdirs_content_list : list (string * list string);
  watchdirs_content_Path : list (string * list string);
  watchdirs_content_set : list (string * list string);
  notify_report : list notice
}.

(** The three dictionaries filled by the loop of [__init__] over
    [self.watch_dirs]; a [key] is the string of an expanded path. *)
Fixpoint init_loop (w : World) (watch_dirs : list string)
    (acc : list (string * list string) * list (string * list string)
           * list (string * list string)) :=
  match watch_dirs with
  | [] => acc
  | key :: rest =>
      let '(cl, cp, cs) := acc in
      let paths := glob w key in
      let s := set_of paths in
      init_loop w rest (dict_set key s cl, dict_set key paths cp, dict_set key s cs)
  end.

Definition init (w : World) (watch_dirs : list string) (ntop : Z)
    (dirs : list One_path_item) : ScannerAndCleaner :=
  let '(cl, cp, cs) := init_loop w (map (expanduser w) watch_dirs) ([], [], []) in
  {| ntopfiles := ntop; dirstoclean := dirs;
     watchdirs_content_list := cl; watchdirs_content_Path := cp;
     watchdirs_content_set := cs; notify_report := [] |}.

Definition set_notify (self : ScannerAndCleaner) (n : list notice) : ScannerAndCleaner :=
  {| ntopfiles := ntopfiles self; dirstoclean := dirstoclean self;
     watchdirs_content_list := watchdirs_content_list self;
     watchdirs_content_Path := watchdirs_content_Path self;
     watchdirs_content_set := watchdirs_content_set self;
     notify_report := n |}.

(** [_write_watchdirs]: the file then holds the dump of
    [watchdirs_content_list], which [json.loads] reads back. *)
Definition dump_watchdirs (self : ScannerAndCleaner) : json :=
  JObj (map (fun kv => (fst kv, JArr (map JStr (snd kv)))) (watchdirs_content_list self)).

Definition _write_watchdirs (self : ScannerAndCleaner) (disk : Disk) : Disk :=
  {| watchdirs_file := Json (dump_watchdirs self);
     timer_file := timer_file disk; report_file := report_file disk |}.

Definition append_report (disk : Disk) (s : section) : Disk :=
  {| watchdirs_file := watchdirs_file disk; timer_file := timer_file disk;
     report_file := report_file disk ++ [s] |}.

Definition write_timer (disk : Disk) (text : string) : Disk :=
  {| watchdirs_file := watchdirs_file disk; timer_file := Some text;
     report_file := report_file disk |}.

(* ================================================================= *)
(** ** [scan] *)

Definition new_directory_message : string :=
  "Seems like a new directory, it was not found in a stored file".

(** [watchdirs_file_content[key]]: [Ok None] is the [KeyError] the loop
    catches; only a dictionary can be indexed by a string. *)
Definition subscript (content : json) (key : string) : result (option json) :=
  match content with
  | JObj d => Ok (dict_get key d)
  | _ => Raise TypeError
  end.

Definition unhashable (j : json) : bool :=
  match j with
  | JArr _ | JObj _ => true
  | _ => false
  end.

Fixpoint strs_of (l : list json) : list string :=
  match l with
  | [] => []
  | JStr s :: r => s :: strs_of r
  | _ :: r => strs_of r
  end.

(** The strings met when [set.difference] iterates over its argument:
    the elements of a list, the characters of a string, the keys of a
    dictionary. *)
Definition iterated_strs (other : json) : result (list string) :=
  match other with
  | JArr l => if existsb unhashable l then Raise TypeError else Ok (strs_of l)
  | JStr s => Ok (map (fun c => String c EmptyString) (list_ascii_of_string s))
  | JObj d => Ok (keys d)
  | _ => Raise TypeError
  end.

Definition difference (current : list string) (other : json) : result (list string) :=
  gone <- iterated_strs other ;;
  Ok (filter (fun x => negb (mem x gone)) current).

(** The loop over the keys of [watchdirs_content_set]. *)
Fixpoint new_content_loop (file_content : json)
    (content_set : list (string * list string))
    (new_content : list (string * json)) : result (list (string * json)) :=
  match content_set with
  | [] => Ok new_content
  | (key, current) :: rest =>
      found <- subscript file_content key ;;
      match found with
      | Some previous =>
          current_content <- difference current previous ;;
          new_content_loop file_content rest
            (match current_content with
             | [] => new_content
             | _ => dict_set key (JArr (map JStr current_content)) new_content
             end)
      | None =>
          new_content_loop file_content rest
            (dict_set key (JStr new_directory_message) new_content)
      end
  end.

(** The first half of [scan]: compare with the stored file, rewrite it. *)
Definition scan_changes (self : ScannerAndCleaner) (disk : Disk)
    : Disk * result scan_report :=
  match watchdirs_file disk with
  | Json file_content =>
      match new_content_loop file_content (watchdirs_content_set self) [] with
      | Ok new_content =>
          (_write_watchdirs self disk,
           Ok (match new_content with [] => NoNew | _ => NewFound new_content end))
      | Raise e => (disk, Raise e)
      end
  | Garbage => (_write_watchdirs self disk, Ok WasCorrupted)
  | NoFile => (_write_watchdirs self disk, Ok WasNotFound)
  end.

(** [all_content += self._add_stat_properties(paths)] for every value of
    [watchdirs_content_Path]. *)
Fixpoint all_content_loop (w : World) (values : list (list string))
    (all_content : list row) : result (list row) :=
  match values with
  | [] => Ok all_content
  | paths :: rest =>
      rows <- _add_stat_properties w paths "size" true true ;;
      all_content_loop w rest (all_content ++ rows)
  end.

(** The [while counter > 0] loop that pops rows from the front. *)
Fixpoint top_rows (counter : nat) (all_content : list row) : list row :=
  match counter, all_content with
  | S c, one_row :: rest => one_row :: top_rows c rest
  | _, _ => []
  end.

Definition top_size_things (w : World) (self : ScannerAndCleaner) : result (list row) :=
  all_content <- all_content_loop w (map snd (watchdirs_content_Path self)) [] ;;
  Ok (top_rows (Z.to_nat (ntopfiles self)) all_content).

Definition scan (w : World) (self : ScannerAndCleaner) (disk : Disk)
    : Disk * result ScannerAndCleaner :=
  match scan_changes self disk with
  | (disk1, Ok report_scan) =>
      match top_size_things w self with
      | Ok top =>
          (append_report disk1 (ScanSection report_scan (ntopfiles self) top),
           Ok (set_notify self (notify_report self ++ [ScanNotice report_scan])))
      | Raise e => (disk1, Raise e)
      end
  | (disk1, Raise e) => (disk1, Raise e)
  end.

(* ================================================================= *)
(** ** [_count_erased_size] *)

Fixpoint erased_loop (new_sizes : list (string * Q)) (saved_sizes : list row)
    (total_result : Q) (acc : list (string * position))
    : Q * list (string * position) :=
  match saved_sizes with
  | [] => (total_result, acc)
  | (k, v) :: rest =>
      match dict_get k new_sizes with
      | Some item =>
          let size_diff := (item - v)%Q in
          erased_loop new_sizes rest (total_result + size_diff)%Q (acc ++ [(k, Diff size_diff)])
      | None => erased_loop new_sizes rest total_result (acc ++ [(k, Dash)])
      end
  end.

(** Returns the pair of [total] and [all_positions]; [w] is the machine
    when the sizes are requested again. *)
Definition _count_erased_size (w : World) (self : ScannerAndCleaner)
    (saved_sizes : list row) : result (Q * list (string * position)) :=
  rows <- _add_stat_properties w (map path (dirstoclean self)) "size" false true ;;
  Ok (erased_loop (dict rows) saved_sizes 0%Q []).

(* ================================================================= *)
(** ** [cleaner] *)

(** [files_to_remove] is a list of [Path] objects until the second filter
    replaces it by the list of tuples of [_add_stat_properties]. *)
Inductive candidates : Type :=
| Paths (l : list string)
| Rows (l : list row).

(** First filter: files and directories, or files only. *)
Definition first_filter (w : World) (item : One_path_item) : list string :=
  if String.eqb (type_to_del item) "f"
  then filter (is_file w) (glob w (path item))
  else glob w (path item).

(** The [for _, v in files_to_remove] loop that counts the items to keep. *)
Fixpoint count_kept (trashold : Q) (files_to_remove : list row) : nat :=
  match files_to_remove with
  | [] => O
  | (_, v) :: rest => if Qltb v trashold then O else S (count_kept trashold rest)
  end.

(** Second filter: keep the most recent n, or the ones younger than x
    days, or none.  [now] is [datetime.timestamp(datetime.now())]. *)
Definition second_filter (w : World) (now : Q) (item : One_path_item)
    (files_to_remove : list string) : result candidates :=
  if 0 <? num_to_keep item then
    rows <- _add_stat_properties w files_to_remove "age" true true ;;
    Ok (Rows (if num_to_keep item <? Z.of_nat (List.length rows)
              then skipn (Z.to_nat (num_to_keep item)) rows
              else []))
  else
    match remove_older item with
    | Some days =>
        rows <- _add_stat_properties w files_to_remove "age" true true ;;
        let trashold := (now - inject_Z (days * 86400))%Q in
        Ok (Rows (skipn (count_kept trashold rows) rows))
    | None => Ok (Paths files_to_remove)
    end.

Definition ignored (item : One_path_item) (file : string) : bool :=
  existsb (fun substring => contains substring file) (ignore item).

(** Third filter: exclude the ignored files.  The tuples are disbanded by
    [dict(files_to_remove).keys()] exactly when the second filter made
    them ([second_filter_shape]).  On [Path] objects the test
    [substring in file] raises [TypeError] once it is evaluated, that is
    when there is a file and an ignore substring. *)
Definition third_filter (item : One_path_item) (files_to_remove : candidates)
    : result (list string) :=
  match files_to_remove with
  | Rows rows => Ok (filter (fun file => negb (ignored item file)) (keys (dict rows)))
  | Paths files =>
      match files, ignore item with
      | [], _ => Ok []
      | _, [] => Ok files
      | _, _ => Raise TypeError
      end
  end.

(** [_erase_subs]: one [rm -rf] process is started for every file of
    [filelist]; [rm] holds the arguments of the processes started so far. *)
Definition _erase_subs (rm filelist : list string) : list string := rm ++ filelist.

(** The list one item hands to [_erase_subs]. *)
Definition final_files_to_remove (w : World) (now : Q) (item : One_path_item)
    : result (list string) :=
  files_to_remove <- second_filter w now item (first_filter w item) ;;
  third_filter item files_to_remove.

(** The loop over [dirstoclean]; the processes already started stay
    started when an exception escapes. *)
Fixpoint clean_loop (w : World) (now : Q) (items : list One_path_item)
    (rm : list string) : list string * result unit :=
  match items with
  | [] => (rm, Ok tt)
  | item :: rest =>
      match final_files_to_remove w now item with
      | Ok files => clean_loop w now rest (_erase_subs rm files)
      | Raise e => (rm, Raise e)
      end
  end.

(** How a call of [cleaner] ends. *)
Inductive ending : Type :=
| Postponed          (* the early [return] of the countdown *)
| Cleaned
| Crashed (e : exn).

Record run : Type := {
  disk_after : Disk;
  self_after : ScannerAndCleaner;
  erased : list string;
  how : ending
}.

(** The test [it is not time to clean]: [Ok (Some n)] when the timer file
    exists, is made of digits and holds [n > 1]. *)
Definition countdown (timer : option string) : result (option Z) :=
  match timer with
  | Some file_content =>
      if isdigit file_content then
        match Py.int file_content with
        | Some n => Ok (if 1 <? n then Some n else None)
        | None => Raise ValueError
        end
      else Ok None
  | None => Ok None
  end.

(** What [cleaner] does once the timer file is rewritten ([disk1]): [w]
    is the machine while the directories are listed and measured, [w'] the
    machine when the sizes are taken again for the report. *)
Definition cleaning (w w' : World) (now : Q) (self : ScannerAndCleaner)
    (disk1 : Disk) : run :=
  match _add_stat_properties w (map path (dirstoclean self)) "size" false true with
  | Raise e => {| disk_after := disk1; self_after := self; erased := []; how := Crashed e |}
  | Ok item_sizes =>
      match clean_loop w now (dirstoclean self) [] with
      | (rm, Raise e) =>
          {| disk_after := disk1; self_after := self; erased := rm; how := Crashed e |}
      | (rm, Ok _) =>
          match _count_erased_size w' self item_sizes with
          | Raise e =>
              {| disk_after := disk1; self_after := self; erased := rm; how := Crashed e |}
          | Ok (total, all_positions) =>
              {| disk_after := append_report disk1 (CleanSection all_positions total);
                 self_after := set_notify self (notify_report self ++ [CleanNotice total]);
                 erased := rm; how := Cleaned |}
          end
      end
  end.

(** The run of the early [return]: the timer file counts down, nothing
    else happens. *)
Definition postponed_run (self : ScannerAndCleaner) (disk : Disk) (n : Z) : run :=
  {| disk_after := write_timer disk (str (n - 1)); self_after := self;
     erased := []; how := Postponed |}.

Definition cleaner (w w' : World) (now : Q) (self : ScannerAndCleaner)
    (disk : Disk) (clean_each_x_launch : Z) : run :=
  match countdown (timer_file disk) with
  | Raise e => {| disk_after := disk; self_after := self; erased := []; how := Crashed e |}
  | Ok (Some n) => postponed_run self disk n
  | Ok None => cleaning w w' now self (write_timer disk (str clean_each_x_launch))
  end.

Definition postponed (e : ending) : bool :=
  match e with
  | Postponed => true
  | _ => false
  end.

(** Consecutive launches of the program: every launch builds its object
    anew and calls [cleaner] on the disk the previous one left; [env k]
    is the machine and the clock of launch [k]. *)
Fixpoint launches (env : nat -> World * World * Q) (self : ScannerAndCleaner)
    (interval : Z) (k n : nat) (disk : Disk) : list ending * Disk :=
  match n with
  | O => ([], disk)
  | S n' =>
      let '(w, w', now) := env k in
      let r := cleaner w w' now self disk interval in
      let '(ends, d) := launches env self interval (S k) n' (disk_after r) in
      (how r :: ends, d)
  end.

(** The timer file after a call of [cleaner], and whether the call was
    postponed: both depend on the timer file alone. *)
Definition tick (interval : Z) (timer : option string) : option string * bool :=
  match countdown timer with
  | Ok (Some n) => (Some (str (n - 1)), true)
  | Ok None => (Some (str interval), false)
  | Raise _ => (timer, false)
  end.

Fixpoint ticks (interval : Z) (n : nat) (timer : option string) : list bool :=
  match n with
  | O => []
  | S n' => snd (tick interval timer) :: ticks interval n' (fst (tick interval timer))
  end.

(* ================================================================= *)
(** ** Notions used by the statements *)

(** The order of the rows after the default sort: biggest value first. *)
Definition biggest_first (a b : row) : Prop := (snd b <= snd a)%Q.

(** An entry whose age cannot be measured: a file that vanished, an entry
    on which [find] fails, a directory in which [find] sees no file. *)
Definition unmeasurable (w : World) (p : string) : Prop :=
  (is_file w p = true /\ stat w p = None) \/
  (is_file w p = false /\ (find w p = None \/ find w p = Some EmptyString)).

(** A stored scan as [_write_watchdirs] writes it: every watched
    directory with the list of the strings of its entries. *)
Definition valid_snapshot (d : list (string * json)) : Prop :=
  forall k v, In (k, v) d -> exists l, v = JArr (map JStr l).

(** [entry] is listed among the new files and directories of a report. *)
Definition entry_reported (report : scan_report) (entry : string) : Prop :=
  exists new_content key l,
    report = NewFound new_content /\ In (key, JArr l) new_content /\ In (JStr entry) l.

(** A line of output: a string without line feed. *)
Fixpoint no_LF (s : string) : bool :=
  match s with
  | EmptyString => true
  | String c r => negb (Ascii.eqb c LF) && no_LF r
  end.

(** The sum of the differences of a list of positions; a hyphen counts
    for nothing. *)
Fixpoint diff_sum (l : list (string * position)) : Q :=
  match l with
  | [] => 0%Q
  | (_, Diff d) :: r => (d + diff_sum r)%Q
  | (_, Dash) :: r => diff_sum r
  end.

(** The position [_count_erased_size] reports for one saved size. *)
Definition position_of (new_sizes : list (string * Q)) (kv : row) : string * position :=
  (fst kv, match dict_get (fst kv) new_sizes with
           | Some item => Diff (item - snd kv)%Q
           | None => Dash
           end).

(* ================================================================= *)
(** ** Concrete machines used by the examples *)

Definition nl : string := String LF EmptyString.

(** One line of the [find] output: the modification time with its ten
    digits of fraction, a plus sign, a space and the path. *)
Definition find_line (mtime p : string) : string :=
  (mtime ++ "+ " ++ p ++ nl)%string.

(** One line of the [du] output: the size, a tab and the path. *)
Definition du_line (size : Z) (p : string) : string :=
  (str size ++ String "009"%char p ++ nl)%string.

(** A machine given by tables: the plain files with size and modification
    time, the [du] and [find] outputs of the directories, the listings.
    Its directories are named by absolute normalised paths, which
    [expanduser] leaves as they are. *)
Definition machine (files : list (string * (Z * Q)))
    (du_out find_out : list (string * string))
    (listing : list (string * list string)) : World :=
  {| is_file := fun p => match dict_get p files with Some _ => true | None => false end;
     stat := fun p => dict_get p files;
     du := fun p => dict_get p du_out;
     find := fun p => dict_get p find_out;
     glob := fun p => match dict_get p listing with Some l => l | None => [] end;
     expanduser := fun d => d |}.

Definition day : Z := 86400.

Definition empty_disk : Disk :=
  {| watchdirs_file := NoFile; timer_file := None; report_file := [] |}.

Definition object (ntop : Z) (dirs : list One_path_item) : ScannerAndCleaner :=
  {| ntopfiles := ntop; dirstoclean := dirs; watchdirs_content_list := [];
     watchdirs_content_Path := []; watchdirs_content_set := []; notify_report := [] |}.

(** A directory whose two files were modified at 1700000100 and at
    1700000200. *)
Definition two_files : World :=
  machine [] []
    [("/t/d", (find_line "1700000100.0000000000" "/t/d/old"
               ++ find_line "1700000200.5000000000" "/t/d/new")%string)]
    [("/t", ["/t/d"])].

(** A directory with one file. *)
Definition one_file : World :=
  machine [] []
    [("/t/d", find_line "1700000200.5000000000" "/t/d/only")]
    [("/t", ["/t/d"])].

Definition keep_one (p : string) (ign : list string) : One_path_item :=
  {| path := p; type_to_del := "a"; num_to_keep := 1; remove_older := None; ignore := ign |}.

(** Two watched directories: the first holds a file of 1 byte, the
    second a file of 10 bytes. *)
Definition two_watched : World :=
  machine [("/a/small", (1, 5%Q)); ("/b/big", (10, 6%Q))] [] []
    [("/a", ["/a/small"]); ("/b", ["/b/big"])].

(** A target of 100 bytes before the cleaning and of 40 bytes after. *)
Definition before_clean : World :=
  machine [] [("/c", du_line 100 "/c")] [] [].
Definition after_clean : World :=
  machine [] [("/c", du_line 40 "/c")] [] [].
Definition full_clean (p : string) : One_path_item :=
  {| path := p; type_to_del := "a"; num_to_keep := 0; remove_older := None; ignore := [] |}.

(** Three files in [/g]: [/g/keepme] is the most recent, then [/g/A],
    then [/g/B]. *)
Definition three_games : World :=
  machine [("/g/keepme", (1, 30%Q)); ("/g/A", (1, 20%Q)); ("/g/B", (1, 10%Q))] [] []
    [("/g", ["/g/keepme"; "/g/A"; "/g/B"])].
(** The same directory without [/g/keepme]. *)
Definition two_games : World :=
  machine [("/g/A", (1, 20%Q)); ("/g/B", (1, 10%Q))] [] []
    [("/g", ["/g/A"; "/g/B"])].

(** Two watched directories: [/A] holds x, y and z, [/B] holds p and q. *)
Definition watched_A_B : World :=
  machine [] [] []
    [("/A", ["/A/x"; "/A/y"; "/A/z"]); ("/B", ["/B/p"; "/B/q"])].

(** A stored scan made when only [/A] was watched and held x and y. *)
Definition disk_with_A : Disk :=
  {| watchdirs_file := Json (JObj [("/A", JArr [JStr "/A/x"; JStr "/A/y"])]);
     timer_file := None; report_file := [] |}.

(** Five log files, the modification time of [/l/n] is n. *)
Definition five_logs : World :=
  machine [("/l/1", (7, 1%Q)); ("/l/5", (7, 5%Q)); ("/l/3", (7, 3%Q));
           ("/l/2", (7, 2%Q)); ("/l/4", (7, 4%Q))] [] []
    [("/l", ["/l/1"; "/l/5"; "/l/3"; "/l/2"; "/l/4"])].
Definition keep_two : One_path_item :=
  {| path := "/l"; type_to_del := "a"; num_to_keep := 2; remove_older := None; ignore := [] |}.

(** Four files modified 5, 10, 31 and 40 days before day 100. *)
Definition four_ages : World :=
  machine [("/m/5", (7, inject_Z (95 * day))); ("/m/40", (7, inject_Z (60 * day)));
           ("/m/31", (7, inject_Z (69 * day))); ("/m/10", (7, inject_Z (90 * day)))] [] []
    [("/m", ["/m/5"; "/m/40"; "/m/31"; "/m/10"])].
(** The same with a fifth file modified exactly 30 days before. *)
Definition five_ages : World :=
  machine [("/m/5", (7, inject_Z (95 * day))); ("/m/40", (7, inject_Z (60 * day)));
           ("/m/30", (7, inject_Z (70 * day)));
           ("/m/31", (7, inject_Z (69 * day))); ("/m/10", (7, inject_Z (90 * day)))] [] []
    [("/m", ["/m/5"; "/m/40"; "/m/30"; "/m/31"; "/m/10"])].
Definition day_100 : Q := inject_Z (100 * day).
Definition older_30 : One_path_item :=
  {| path := "/m"; type_to_del := "a"; num_to_keep := 0; remove_older := Some 30; ignore := [] |}.

(** Two files and, between them, a directory without any file. *)
Definition with_empty_dir : World :=
  machine [("/k/a", (7, 10%Q)); ("/k/b", (7, 20%Q))] [] [("/k/empty", EmptyString)]
    [("/k", ["/k/a"; "/k/empty"; "/k/b"])].

(* ================================================================= *)
(** ** Further notions and machines *)

(** The entry has a value in the given mode. *)
Definition has_value (w : World) (stattype p : string) : bool :=
  match stat_of w stattype p with
  | Ok (Some _) => true
  | _ => false
  end.

(** The order of the rows after a sort that is not reversed. *)
Definition smallest_first (a b : row) : Prop := (snd a <= snd b)%Q.

(** The rows whose value is [v]. *)
Definition with_value (v : Q) (rows : list row) : list row :=
  filter (fun r => Qeq_bool (snd r) v) rows.

(** What the scan reports for a watched directory holding [current], given
    the stored scan [d]: the message for a directory that is not stored,
    the entries that are not in the stored list when there are some,
    nothing otherwise. *)
Definition reported_for (d : list (string * json)) (key : string)
    (current : list string) : option json :=
  match dict_get key d with
  | None => Some (JStr new_directory_message)
  | Some previous =>
      match difference current previous with
      | Ok (x :: l) => Some (JArr (map JStr (x :: l)))
      | _ => None
      end
  end.

(** The object is as [__init__] leaves it: the lists saved are the sets
    compared, under keys that are all different. *)
Definition well_formed (self : ScannerAndCleaner) : Prop :=
  watchdirs_content_list self = watchdirs_content_set self /\
  NoDup (keys (watchdirs_content_set self)).

(** [sub] occurs somewhere in [s]. *)
Definition occurs (sub s : string) : Prop :=
  exists a b, s = (a ++ sub ++ b)%string.

(** [report]: the text handed to [notify-send]. *)
Definition report (self : ScannerAndCleaner) : list notice := notify_report self.

(** The program: build the object, scan, clean, notify.  The result is
    the disk it leaves, the files whose removal it started, and the
    notification or the exception that ended it. *)
Definition main (w w' : World) (now : Q) (watch_dirs : list string) (ntop : Z)
    (dirs : list One_path_item) (interval : Z) (disk : Disk)
    : Disk * list string * result (list notice) :=
  let sc := init w watch_dirs ntop dirs in
  match scan w sc disk with
  | (disk1, Raise e) => (disk1, [], Raise e)
  | (disk1, Ok sc1) =>
      let r := cleaner w w' now sc1 disk1 interval in
      (disk_after r, erased r,
       match how r with
       | Crashed e => Raise e
       | _ => Ok (report (self_after r))
       end)
  end.

(** A stored scan that is a JSON list. *)
Definition disk_with_list : Disk :=
  {| watchdirs_file := Json (JArr [JStr "/A/x"]); timer_file := None; report_file := [] |}.

(** A full cleaning with an ignore substring. *)
Definition full_clean_ignoring (p : string) (ign : list string) : One_path_item :=
  {| path := p; type_to_del := "a"; num_to_keep := 0; remove_older := None; ignore := ign |}.

(** A file, a directory with one file and a vanished entry. *)
Definition mixed_entries : World :=
  machine [("/t/a", (3, 10%Q))] []
    [("/t/d", find_line "1700000200.5000000000" "/t/d/only")]
    [("/t", ["/t/gone"; "/t/a"; "/t/d"])].

(** Four files, two of them of the same size. *)
Definition equal_sizes : World :=
  machine [("/e/1", (5, 1%Q)); ("/e/2", (9, 2%Q)); ("/e/3", (5, 3%Q)); ("/e/4", (7, 4%Q))]
    [] [] [("/e", ["/e/1"; "/e/2"; "/e/3"; "/e/4"])].

(** Two directories in [/g].  The files of [/g/A] were modified at
    1700000010 and at 1700000100, the files of [/g/B] at 1700000050 and at
    1700000060: [/g/A] is the one modified most recently. *)
Definition two_directories : World :=
  machine [] []
    [("/g/A", (find_line "1700000010.0000000000" "/g/A/old"
               ++ find_line "1700000100.0000000000" "/g/A/new")%string);
     ("/g/B", (find_line "1700000050.0000000000" "/g/B/old"
               ++ find_line "1700000060.0000000000" "/g/B/new")%string)]
    [("/g", ["/g/A"; "/g/B"])].

(** A directory whose two files were modified 5 days and 40 days before
    day 100, at the seconds 8208000 and 5184000. *)
Definition recent_directory : World :=
  machine [] []
    [("/m/d", (find_line "8208000.0000000000" "/m/d/new"
               ++ find_line "5184000.0000000000" "/m/d/old")%string)]
    [("/m", ["/m/d"])].

(** A timer file that holds the superscript two (U+00B2) and nothing
    else. *)
Definition superscript_two : string := String "178"%char EmptyString.
Definition disk_with_superscript : Disk :=
  {| watchdirs_file := NoFile; timer_file := Some superscript_two; report_file := [] |}.

(** The disk launch [k] finds (launches are counted from 0) when the data
    files are left alone between the launches: the disk the launch before
    left.  [launch] is the call of [cleaner] of launch [k]. *)
Fixpoint disk_before (env : nat -> World * World * Q) (self : ScannerAndCleaner)
    (interval : Z) (k : nat) (disk : Disk) : Disk :=
  match k with
  | O => disk
  | S k' =>
      let '(w, w', now) := env k' in
      disk_after (cleaner w w' now self (disk_before env self interval k' disk) interval)
  end.

Definition launch (env : nat -> World * World * Q) (self : ScannerAndCleaner)
    (interval : Z) (k : nat) (disk : Disk) : run :=
  let '(w, w', now) := env k in
  cleaner w w' now self (disk_before env self interval k disk) interval.

(** Nothing was added between two objects: whatever [later] holds under a
    key, [earlier] held under the same key.  Entries may be gone, and so
    may keys; the order of the entries is free. *)
Definition nothing_added (earlier later : ScannerAndCleaner) : Prop :=
  forall key current,
    dict_get key (watchdirs_content_set later) = Some current ->
    exists previous,
      dict_get key (watchdirs_content_set earlier) = Some previous /\
      incl current previous.

(** The machine [watched_A_B] where the entries are plain files with
    sizes: [/B/q] is the biggest, then [/B/p]. *)
Definition sized_A_B : World :=
  machine [("/A/x", (1, 1%Q)); ("/A/y", (2, 1%Q)); ("/A/z", (3, 1%Q));
           ("/B/p", (50, 1%Q)); ("/B/q", (70, 1%Q))] [] []
    [("/A", ["/A/x"; "/A/y"; "/A/z"]); ("/B", ["/B/p"; "/B/q"])].


(** The modification time of a file of the machine. *)
Definition mtime_of (w : World) (p : string) : Q :=
  match stat w p with
  | Some (_, st_mtime) => st_mtime
  | None => 0%Q
  end.

(** A machine on which two ways of writing [/a] and a path under the
    home directory are expanded. *)
Definition sloppy_names : World :=
  {| is_file := is_file two_watched; stat := stat two_watched; du := du two_watched;
     find := find two_watched; glob := glob two_watched;
     expanduser := fun d =>
       match dict_get d [("/a/", "/a"); ("~/b/", "/b")] with
       | Some p => p
       | None => d
       end |}.

(** The object of a launch after the one of [sized_A_B]: the same
    entries, listed in another order. *)
Definition reordered_A_B : World :=
  machine [] [] []
    [("/B", ["/B/q"; "/B/p"]); ("/A", ["/A/z"; "/A/x"; "/A/y"])].

(* ================================================================= *)
(** ** Facts about the Python primitives *)

Lemma Qltb_lt (x y : Q) : Qltb x y = true <-> (x < y)%Q.
Proof.
  unfold Qltb. rewrite negb_true_iff. split.
  - intro H. apply Qnot_le_lt. intro L. apply Qle_bool_iff in L. congruence.
  - intro H. destruct (Qle_bool y x) eqn:E; [|reflexivity].
    apply Qle_bool_iff in E. exfalso. apply (Qlt_not_le _ _ H E).
Qed.

Lemma Qltb_ge (x y : Q) : Qltb x y = false <-> (y <= x)%Q.
Proof.
  unfold Qltb. rewrite negb_false_iff. apply Qle_bool_iff.
Qed.

Section SortFacts.
Context {A K : Type} (key : A -> K) (ltb : K -> K -> bool).

Lemma insert_perm (reverse : bool) (x : A) (l : list A) :
  Permutation (insert key ltb reverse x l) (x :: l).
Proof.
  induction l as [|y l IH]; simpl.
  - apply Permutation_refl.
  - destruct (ahead key ltb reverse y x).
    + apply perm_trans with (y :: x :: l).
      * now apply perm_skip.
      * apply perm_swap.
    + apply Permutation_refl.
Qed.

Lemma sort_perm (reverse : bool) (l : list A) :
  Permutation (sort key ltb reverse l) l.
Proof.
  induction l as [|x l IH]; simpl.
  - apply perm_nil.
  - apply perm_trans with (x :: sort key ltb reverse l).
    + apply insert_perm.
    + now apply perm_skip.
Qed.

Lemma sort_length (reverse : bool) (l : list A) :
  List.length (sort key ltb reverse l) = List.length l.
Proof. apply Permutation_length, sort_perm. Qed.
End SortFacts.


Lemma insert_biggest_first (x : row) (l : list row) :
  StronglySorted biggest_first l ->
  StronglySorted biggest_first (insert (@snd string Q) Qltb true x l).
Proof.
  induction 1 as [|y l S IH F]; simpl.
  - repeat constructor.
  - unfold ahead. destruct (Qltb (snd x) (snd y)) eqn:E.
    + constructor; [exact IH|].
      apply Qltb_lt in E.
      eapply Permutation_Forall.
      * apply Permutation_sym, insert_perm.
      * constructor; [|exact F]. unfold biggest_first. lra.
    + apply Qltb_ge in E. constructor.
      * now constructor.
      * constructor; [exact E|].
        eapply Forall_impl; [|exact F].
        unfold biggest_first. intros a Ha. lra.
Qed.

Lemma sort_biggest_first (l : list row) :
  StronglySorted biggest_first (sort (@snd string Q) Qltb true l).
Proof.
  induction l as [|x l IH]; simpl.
  - constructor.
  - now apply insert_biggest_first.
Qed.

(** Cutting a sorted list in two: the front is not below the back. *)
Lemma sorted_app_inv (l1 l2 : list row) :
  StronglySorted biggest_first (l1 ++ l2) ->
  forall a b, In a l1 -> In b l2 -> (snd b <= snd a)%Q.
Proof.
  induction l1 as [|x l1 IH]; simpl; intros S a b Ha Hb.
  - contradiction.
  - inversion S as [|? ? S' F]; subst.
    destruct Ha as [<-|Ha].
    + rewrite Forall_forall in F. apply F. apply in_or_app. now right.
    + now apply IH.
Qed.

Lemma dict_set_fresh {V : Type} (k : string) (v : V) (d : list (string * V)) :
  ~ In k (keys d) -> dict_set k v d = d ++ [(k, v)].
Proof.
  induction d as [|[k' v'] d IH]; simpl; intro N.
  - reflexivity.
  - destruct (String.eqb_spec k k') as [-> |D].
    + exfalso. apply N. now left.
    + rewrite IH; [reflexivity|]. intro I. apply N. now right.
Qed.

Lemma keys_dict_set {V : Type} (k : string) (v : V) (d : list (string * V)) (x : string) :
  In x (keys (dict_set k v d)) <-> x = k \/ In x (keys d).
Proof.
  induction d as [|[k' v'] d IH]; simpl.
  - intuition.
  - destruct (String.eqb_spec k k') as [-> |D]; simpl.
    + intuition.
    + rewrite IH. intuition.
Qed.

Lemma keys_fold_dict_set {V : Type} (l acc : list (string * V)) (x : string) :
  In x (keys (fold_left (fun d kv => dict_set (fst kv) (snd kv) d) l acc))
  <-> In x (keys acc) \/ In x (map fst l).
Proof.
  revert acc. induction l as [|[k v] l IH]; simpl; intro acc.
  - intuition.
  - rewrite IH, keys_dict_set. intuition.
Qed.

Lemma keys_dict {V : Type} (l : list (string * V)) (x : string) :
  In x (keys (dict l)) <-> In x (map fst l).
Proof.
  unfold dict. rewrite keys_fold_dict_set. simpl. intuition.
Qed.

Lemma fold_dict_set_nodup {V : Type} (l acc : list (string * V)) :
  NoDup (keys acc ++ map fst l) ->
  fold_left (fun d kv => dict_set (fst kv) (snd kv) d) l acc = acc ++ l.
Proof.
  revert acc. induction l as [|[k v] l IH]; simpl; intros acc N.
  - now rewrite app_nil_r.
  - rewrite dict_set_fresh.
    + rewrite IH.
      * now rewrite <- app_assoc.
      * unfold keys in *. rewrite map_app, <- app_assoc. exact N.
    + intro I. apply NoDup_remove_2 in N. apply N. apply in_or_app. now left.
Qed.

Lemma dict_nodup {V : Type} (l : list (string * V)) :
  NoDup (map fst l) -> dict l = l.
Proof.
  intro N. unfold dict. now rewrite fold_dict_set_nodup.
Qed.

(* ================================================================= *)
(** ** Facts about [_add_stat_properties] *)

Lemma stat_of_path (w : World) (stattype p : string) (r : row) :
  stat_of w stattype p = Ok (Some r) -> fst r = p.
Proof.
  unfold stat_of. intro H.
  repeat match type of H with
         | context [match ?x with _ => _ end] => destruct x
         | context [if ?x then _ else _] => destruct x
         end;
    try discriminate; now inversion H.
Qed.


Lemma stat_loop_acc (w : World) (stattype : string) (filepaths : list string)
    (acc : list row) :
  stat_loop w stattype filepaths acc =
  (rows <- stat_loop w stattype filepaths [] ;; Ok (acc ++ rows)).
Proof.
  revert acc. induction filepaths as [|p rest IH]; simpl; intro acc.
  - now rewrite app_nil_r.
  - destruct (stat_of w stattype p) as [r|e]; simpl; [|reflexivity].
    rewrite IH. rewrite (IH (match r with Some x => [x] | None => [] end)).
    destruct (stat_loop w stattype rest []) as [rows|e]; simpl; [|reflexivity].
    destruct r; simpl; [|reflexivity]. now rewrite <- app_assoc.
Qed.

Lemma stat_loop_cons (w : World) (stattype p : string) (rest : list string) :
  stat_loop w stattype (p :: rest) [] =
  (r <- stat_of w stattype p ;;
   rows <- stat_loop w stattype rest [] ;;
   Ok (match r with Some x => x :: rows | None => rows end)).
Proof.
  simpl. destruct (stat_of w stattype p) as [r|e]; simpl; [|reflexivity].
  rewrite stat_loop_acc.
  destruct (stat_loop w stattype rest []); simpl; [|reflexivity].
  now destruct r.
Qed.

Lemma stat_loop_app (w : World) (stattype : string) (l1 l2 : list string) :
  stat_loop w stattype (l1 ++ l2) [] =
  (a <- stat_loop w stattype l1 [] ;;
   b <- stat_loop w stattype l2 [] ;; Ok (a ++ b)).
Proof.
  induction l1 as [|p l1 IH].
  - simpl. now destruct (stat_loop w stattype l2 []).
  - rewrite <- app_comm_cons, !stat_loop_cons, IH.
    destruct (stat_of w stattype p) as [r|e]; simpl; [|reflexivity].
    destruct (stat_loop w stattype l1 []); simpl; [|reflexivity].
    destruct (stat_loop w stattype l2 []); simpl; [|reflexivity].
    now destruct r.
Qed.

(** An entry without a value does not change what the loop returns. *)
Lemma stat_loop_skip (w : World) (stattype p : string) (l1 l2 : list string) :
  stat_of w stattype p = Ok None ->
  stat_loop w stattype (l1 ++ p :: l2) [] = stat_loop w stattype (l1 ++ l2) [].
Proof.
  intro H. rewrite !stat_loop_app, stat_loop_cons, H. simpl.
  destruct (stat_loop w stattype l1 []); simpl; [|reflexivity].
  now destruct (stat_loop w stattype l2 []).
Qed.

(** Every row the loop returns is the value of one of the entries. *)
Lemma stat_loop_rows (w : World) (stattype : string) (filepaths : list string)
    (rows : list row) :
  stat_loop w stattype filepaths [] = Ok rows ->
  forall r, In r rows ->
    In (fst r) filepaths /\ stat_of w stattype (fst r) = Ok (Some r).
Proof.
  revert rows. induction filepaths as [|p rest IH]; intros rows H r I.
  - simpl in H. inversion H; subst. contradiction.
  - rewrite stat_loop_cons in H.
    destruct (stat_of w stattype p) as [o|e] eqn:E; simpl in H; [|discriminate].
    destruct (stat_loop w stattype rest []) as [rows'|e]; simpl in H; [|discriminate].
    inversion H; subst; clear H.
    assert (T : In r rows' -> In (fst r) (p :: rest) /\ stat_of w stattype (fst r) = Ok (Some r)).
    { intro I'. destruct (IH rows' eq_refl r I') as [A B]. split; [now right|exact B]. }
    destruct o as [x|]; [|now apply T].
    destruct I as [<-|I]; [|now apply T].
    pose proof (stat_of_path _ _ _ _ E) as P. rewrite P. split; [now left|exact E].
Qed.

(** When every entry has a value, the loop returns one row per entry, in
    the order of the entries. *)
Lemma stat_loop_all (w : World) (stattype : string) (filepaths : list string) :
  (forall p, In p filepaths -> exists v, stat_of w stattype p = Ok (Some (p, v))) ->
  exists rows, stat_loop w stattype filepaths [] = Ok rows /\ map fst rows = filepaths.
Proof.
  induction filepaths as [|p rest IH]; intro M.
  - exists []. now split.
  - destruct IH as [rows [H1 H2]].
    { intros q I. apply M. now right. }
    destruct (M p (or_introl eq_refl)) as [v E].
    exists ((p, v) :: rows). rewrite stat_loop_cons, E, H1. simpl. now rewrite H2.
Qed.

Lemma NoDup_app_disjoint {A : Type} (l1 l2 : list A) (x : A) :
  NoDup (l1 ++ l2) -> In x l1 -> In x l2 -> False.
Proof.
  induction l1 as [|y l1 IH]; simpl; intros N I1 I2.
  - contradiction.
  - inversion N as [|? ? NI N']; subst.
    destruct I1 as [-> |I1].
    + apply NI. apply in_or_app. now right.
    + now apply IH.
Qed.

Lemma filter_not_ignored_nil (item : One_path_item) (l : list string) :
  ignore item = [] -> filter (fun file => negb (ignored item file)) l = l.
Proof.
  intro E. unfold ignored. rewrite E. simpl.
  induction l as [|x l IH]; simpl; [reflexivity|now rewrite IH].
Qed.

(** The rows of the age probe, when it returns: sorted, newest first, one
    row per entry that has a value. *)
Lemma age_rows_sorted (w : World) (files : list string) (rows : list row) :
  _add_stat_properties w files "age" true true = Ok rows ->
  StronglySorted biggest_first rows /\
  forall r, In r rows -> In (fst r) files /\ stat_of w "age" (fst r) = Ok (Some r).
Proof.
  unfold _add_stat_properties. intro H.
  destruct (stat_loop w "age" files []) as [raw|e] eqn:E; simpl in H; [|discriminate].
  inversion H; subst; clear H. split.
  - apply sort_biggest_first.
  - intros r I. apply (stat_loop_rows _ _ _ _ E).
    eapply Permutation_in; [apply (sort_perm (@snd string Q) Qltb true)|exact I].
Qed.

(** The second filter of [num_to_keep > 0], in terms of the values the
    probe returns (for a plain file its modification time, for a
    directory whatever [stat_of] reads): when the probe returns a value
    for every candidate and the values are pairwise distinct, the rows
    split into the rows kept and the rows selected [sel], every candidate
    is in exactly one of them, every selected row has a smaller value than
    every kept one, nothing is selected when there are at most
    [num_to_keep] candidates, and otherwise exactly [num_to_keep] rows are
    kept.  Without ignore substrings the selected rows are the files
    removed. *)
Lemma keep_count_selects_oldest (w : World) (now : Q) (item : One_path_item)
    (files : list string) :
  0 < num_to_keep item ->
  NoDup files ->
  (forall p, In p files -> exists v, stat_of w "age" p = Ok (Some (p, v))) ->
  (forall p q v u, In p files -> In q files -> p <> q ->
     stat_of w "age" p = Ok (Some (p, v)) ->
     stat_of w "age" q = Ok (Some (q, u)) -> ~ (v == u)%Q) ->
  exists kept sel : list row,
    second_filter w now item files = Ok (Rows sel) /\
    Permutation (map fst (kept ++ sel)) files /\
    (forall r, In r (kept ++ sel) -> stat_of w "age" (fst r) = Ok (Some r)) /\
    (forall a b, In a kept -> In b sel -> (snd b < snd a)%Q) /\
    (Z.of_nat (List.length files) <= num_to_keep item -> sel = []) /\
    (num_to_keep item < Z.of_nat (List.length files) ->
       Z.of_nat (List.length kept) = num_to_keep item /\
       Z.of_nat (List.length sel) = Z.of_nat (List.length files) - num_to_keep item) /\
    (ignore item = [] -> third_filter item (Rows sel) = Ok (map fst sel)).
Proof.
  intros K N M D.
  destruct (stat_loop_all w "age" files M) as [raw [L F]].
  set (rows := sort (@snd string Q) Qltb true raw).
  assert (P : _add_stat_properties w files "age" true true = Ok rows).
  { unfold _add_stat_properties. now rewrite L. }
  destruct (age_rows_sorted _ _ _ P) as [S R].
  assert (Len : List.length rows = List.length files).
  { unfold rows. now rewrite sort_length, <- F, length_map. }
  assert (PF : Permutation (map fst rows) files).
  { rewrite <- F. apply Permutation_map, sort_perm. }
  set (n := Z.to_nat (num_to_keep item)).
  set (big := num_to_keep item <? Z.of_nat (List.length rows)).
  pose (kept := (if big then firstn n rows else rows) : list row).
  pose (sel := (if big then skipn n rows else []) : list row).
  exists kept, sel.
  assert (Cut : kept ++ sel = rows).
  { unfold kept, sel. destruct big; [apply firstn_skipn|apply app_nil_r]. }
  rewrite Cut. repeat split.
  - unfold second_filter. apply Z.ltb_lt in K. rewrite K, P. reflexivity.
  - exact PF.
  - intros r I. now apply R.
  - intros a b Ia Ib.
    assert (Le : (snd b <= snd a)%Q).
    { apply (sorted_app_inv _ _ ltac:(rewrite Cut; exact S) a b Ia Ib). }
    assert (Ne : fst a <> fst b).
    { intro Eq.
      assert (ND : NoDup (map fst rows)).
      { eapply Permutation_NoDup; [apply Permutation_sym, PF|exact N]. }
      rewrite <- Cut, map_app in ND.
      apply (NoDup_app_disjoint _ _ (fst a) ND).
      - now apply in_map.
      - rewrite Eq. now apply in_map. }
    assert (Ia' : In a rows) by (rewrite <- Cut; apply in_or_app; now left).
    assert (Ib' : In b rows) by (rewrite <- Cut; apply in_or_app; now right).
    destruct (R a Ia') as [Fa Sa], (R b Ib') as [Fb Sb].
    destruct a as [pa va], b as [pb vb]; simpl in *.
    pose proof (D pa pb va vb Fa Fb Ne Sa Sb) as Dv.
    apply Qle_lteq in Le. destruct Le as [Lt|Eq]; [exact Lt|].
    exfalso. apply Dv. now symmetry.
  - intro Small. unfold sel, big. rewrite Len.
    destruct (num_to_keep item <? Z.of_nat (List.length files)) eqn:E; [|reflexivity].
    apply Z.ltb_lt in E. lia.
  - unfold kept, big. rewrite Len. apply Z.ltb_lt in H. rewrite H.
    rewrite length_firstn. unfold n. lia.
  - unfold sel, big. rewrite Len. apply Z.ltb_lt in H. rewrite H.
    rewrite length_skipn. unfold n. lia.
  - intro I. unfold third_filter. rewrite filter_not_ignored_nil by exact I.
    f_equal. rewrite dict_nodup; [reflexivity|].
    assert (ND : NoDup (map fst rows)).
    { eapply Permutation_NoDup; [apply Permutation_sym, PF|exact N]. }
    rewrite <- Cut, map_app in ND. now apply NoDup_app_remove_l in ND.
Qed.

Lemma StronglySorted_app_r {A : Type} (R : A -> A -> Prop) (l1 l2 : list A) :
  StronglySorted R (l1 ++ l2) -> StronglySorted R l2.
Proof.
  induction l1 as [|x l1 IH]; simpl; intro S.
  - exact S.
  - inversion S; subst. now apply IH.
Qed.

(** The walk of the age threshold: the rows counted are not older than
    the threshold, the first row left is. *)
Lemma count_kept_walk (trashold : Q) (rows : list row) :
  (forall r, In r (firstn (count_kept trashold rows) rows) -> (trashold <= snd r)%Q) /\
  match skipn (count_kept trashold rows) rows with
  | [] => True
  | r :: _ => (snd r < trashold)%Q
  end.
Proof.
  induction rows as [|[k v] rows [IH1 IH2]]; simpl.
  - split; [contradiction|exact I].
  - destruct (Qltb v trashold) eqn:E; simpl.
    + split; [contradiction|]. now apply Qltb_lt.
    + split; [|exact IH2].
      intros r [<-|H]; [|now apply IH1]. simpl. now apply Qltb_ge.
Qed.

(** When no entry makes the probe raise, the loop returns. *)
Lemma stat_loop_total (w : World) (stattype : string) (filepaths : list string) :
  (forall p, In p filepaths -> exists r, stat_of w stattype p = Ok r) ->
  exists rows, stat_loop w stattype filepaths [] = Ok rows.
Proof.
  induction filepaths as [|p rest IH]; intro M.
  - now exists [].
  - destruct IH as [rows H].
    { intros q I. apply M. now right. }
    destruct (M p (or_introl eq_refl)) as [r E].
    rewrite stat_loop_cons, E, H. simpl. eauto.
Qed.

(** The second filter of an age threshold, once the probe returned. *)
Lemma second_filter_walk (w : World) (now : Q) (item : One_path_item)
    (files : list string) (days : Z) (rows : list row) :
  num_to_keep item <= 0 ->
  remove_older item = Some days ->
  _add_stat_properties w files "age" true true = Ok rows ->
  exists exempt sel : list row,
    StronglySorted biggest_first rows /\
    rows = exempt ++ sel /\
    second_filter w now item files = Ok (Rows sel) /\
    (forall r, In r exempt -> (now - inject_Z (days * 86400) <= snd r)%Q) /\
    (forall r, In r sel -> (snd r < now - inject_Z (days * 86400))%Q).
Proof.
  intros K D P.
  set (cutoff := (now - inject_Z (days * 86400))%Q).
  destruct (age_rows_sorted _ _ _ P) as [S _].
  destruct (count_kept_walk cutoff rows) as [W1 W2].
  exists (firstn (count_kept cutoff rows) rows), (skipn (count_kept cutoff rows) rows).
  repeat split.
  - exact S.
  - symmetry. apply firstn_skipn.
  - unfold second_filter. apply Z.ltb_ge in K. rewrite K, D, P. reflexivity.
  - exact W1.
  - intros r I.
    rewrite <- (firstn_skipn (count_kept cutoff rows) rows) in S.
    apply StronglySorted_app_r in S.
    destruct (skipn (count_kept cutoff rows) rows) as [|r0 rest]; [contradiction|].
    destruct I as [<-|I]; [exact W2|].
    inversion S as [|? ? _ F]; subst. rewrite Forall_forall in F.
    specialize (F r I). unfold biggest_first in F. lra.
Qed.

(** The second filter of [remove_older = days] without [num_to_keep], in
    terms of the values the probe returns: when the probe raises on no
    candidate, the rows come sorted by value, biggest first, and the
    filter cuts them at one point: the values before it are not below the
    cutoff [now - days * 86400] (a value exactly at the cutoff is exempt),
    the rows from it on are selected and their values are all strictly
    below the cutoff. *)
Lemma remove_older_selects_from_first_old (w : World) (now : Q)
    (item : One_path_item) (files : list string) (days : Z) :
  num_to_keep item <= 0 ->
  remove_older item = Some days ->
  (forall p, In p files -> exists r, stat_of w "age" p = Ok r) ->
  exists rows exempt sel : list row,
    _add_stat_properties w files "age" true true = Ok rows /\
    StronglySorted biggest_first rows /\
    rows = exempt ++ sel /\
    second_filter w now item files = Ok (Rows sel) /\
    (forall r, In r exempt -> (now - inject_Z (days * 86400) <= snd r)%Q) /\
    (forall r, In r sel -> (snd r < now - inject_Z (days * 86400))%Q).
Proof.
  intros K D M.
  destruct (stat_loop_total w "age" files M) as [raw L].
  assert (P : _add_stat_properties w files "age" true true
              = Ok (sort (@snd string Q) Qltb true raw)).
  { unfold _add_stat_properties. now rewrite L. }
  destruct (second_filter_walk w now item files days _ K D P) as [exempt [sel H]].
  exists (sort (@snd string Q) Qltb true raw), exempt, sel.
  split; [exact P|exact H].
Qed.


Lemma unmeasurable_age (w : World) (p : string) :
  unmeasurable w p -> stat_of w "age" p = Ok None.
Proof.
  unfold unmeasurable, stat_of.
  intros [[F S]|[F [N|N]]]; rewrite F; [now rewrite S| |]; simpl; now rewrite N.
Qed.

Lemma skipn_In {A : Type} (n : nat) (l : list A) (x : A) :
  In x (skipn n l) -> In x l.
Proof.
  intro H. rewrite <- (firstn_skipn n l). apply in_or_app. now right.
Qed.

(** The second filter only keeps rows of measured entries. *)
Lemma second_filter_rows (w : World) (now : Q) (item : One_path_item)
    (files : list string) (sel : list row) :
  second_filter w now item files = Ok (Rows sel) ->
  forall r, In r sel -> In (fst r) files /\ stat_of w "age" (fst r) = Ok (Some r).
Proof.
  unfold second_filter. intros H r I.
  destruct (0 <? num_to_keep item).
  - destruct (_add_stat_properties w files "age" true true) as [rows|e] eqn:P;
      simpl in H; [|discriminate].
    inversion H; subst; clear H.
    apply (proj2 (age_rows_sorted _ _ _ P)).
    destruct (num_to_keep item <? Z.of_nat (List.length rows)); [|contradiction].
    now apply skipn_In in I.
  - destruct (remove_older item); [|discriminate].
    destruct (_add_stat_properties w files "age" true true) as [rows|e] eqn:P;
      simpl in H; [|discriminate].
    inversion H; subst; clear H.
    apply (proj2 (age_rows_sorted _ _ _ P)).
    now apply skipn_In in I.
Qed.

(** The test of line 405 of the source holds exactly when the second
    filter returned tuples. *)
Lemma second_filter_shape (w : World) (now : Q) (item : One_path_item)
    (files : list string) (c : candidates) :
  second_filter w now item files = Ok c ->
  match c with
  | Rows _ => 0 < num_to_keep item \/ remove_older item <> None
  | Paths l => num_to_keep item <= 0 /\ remove_older item = None /\ l = files
  end.
Proof.
  unfold second_filter. intro H.
  destruct (0 <? num_to_keep item) eqn:K.
  - apply Z.ltb_lt in K.
    destruct (_add_stat_properties w files "age" true true); simpl in H; [|discriminate].
    inversion H; subst. now left.
  - apply Z.ltb_ge in K. destruct (remove_older item) eqn:D.
    + destruct (_add_stat_properties w files "age" true true); simpl in H; [|discriminate].
      inversion H; subst. right. discriminate.
    + inversion H; subst. auto.
Qed.

(** C10: an entry whose age cannot be measured (a vanished entry, a
    failed [find], a directory without files).  Under [num_to_keep] or
    [remove_older] the second filter returns what it returns without that
    entry, so the entry takes no place among the kept ones, and it is
    never among the files removed.  Under a full cleaning the second
    filter leaves every candidate, that entry included, and without ignore
    substrings they are all removed. *)
Theorem unmeasurable_age_dropped (w : World) (now : Q) (item : One_path_item)
    (l1 l2 : list string) (p : string) :
  unmeasurable w p ->
  (0 < num_to_keep item \/ remove_older item <> None ->
     second_filter w now item (l1 ++ p :: l2) = second_filter w now item (l1 ++ l2) /\
     forall files_to_remove final,
       second_filter w now item (l1 ++ p :: l2) = Ok files_to_remove ->
       third_filter item files_to_remove = Ok final ->
       ~ In p final) /\
  (num_to_keep item <= 0 -> remove_older item = None ->
     second_filter w now item (l1 ++ p :: l2) = Ok (Paths (l1 ++ p :: l2)) /\
     (ignore item = [] ->
        third_filter item (Paths (l1 ++ p :: l2)) = Ok (l1 ++ p :: l2) /\
        In p (l1 ++ p :: l2))).
Proof.
  intro U. apply unmeasurable_age in U. split.
  - intro Pol. split.
    + unfold second_filter, _add_stat_properties.
      rewrite (stat_loop_skip _ _ _ l1 l2 U).
      destruct (0 <? num_to_keep item) eqn:K; [reflexivity|].
      destruct (remove_older item); [reflexivity|].
      apply Z.ltb_ge in K. destruct Pol as [Pol|Pol]; [lia|contradiction].
    + intros c final H2 H3 I.
      pose proof (second_filter_shape _ _ _ _ _ H2) as Sh.
      destruct c as [l|sel].
      * destruct Sh as [K [D _]]. destruct Pol as [Pol|Pol]; [lia|contradiction].
      * unfold third_filter in H3. inversion H3; subst; clear H3.
        apply filter_In in I. destruct I as [I _].
        apply (proj1 (keys_dict sel p)) in I. apply in_map_iff in I. destruct I as [r [E I]].
        destruct (second_filter_rows _ _ _ _ _ H2 r I) as [_ S].
        rewrite E, U in S. discriminate.
  - intros K D. split.
    + unfold second_filter. apply Z.ltb_ge in K. now rewrite K, D.
    + intro Ig. split.
      * unfold third_filter. rewrite Ig. now destruct l1.
      * apply in_or_app. right. now left.
Qed.

(* ================================================================= *)
(** ** The countdown of [cleaner] *)

Lemma digit_not_space (c : ascii) : is_digit c = true -> is_space_str c = false.
Proof.
  destruct c as [[] [] [] [] [] [] [] []]; vm_compute; congruence.
Qed.

Lemma lstrip_digit (c : ascii) (cs : list ascii) :
  is_digit c = true -> lstrip (c :: cs) = c :: cs.
Proof.
  intro H. simpl. now rewrite (digit_not_space c H).
Qed.

Lemma strip_digits (cs : list ascii) :
  forallb is_digit cs = true -> strip cs = cs.
Proof.
  intro H. unfold strip.
  destruct cs as [|c cs]; [reflexivity|].
  simpl in H. apply andb_prop in H. destruct H as [Hc Hcs].
  rewrite (lstrip_digit c cs Hc).
  assert (R : forallb is_digit (rev (c :: cs)) = true).
  { apply forallb_forall. intros x I. apply in_rev in I.
    destruct I as [<-|I]; [exact Hc|].
    now apply (proj1 (forallb_forall _ _) Hcs). }
  destruct (rev (c :: cs)) as [|d ds] eqn:E.
  - apply (f_equal (@List.length ascii)) in E. rewrite length_rev in E. discriminate.
  - simpl in R. apply andb_prop in R. destruct R as [Hd _].
    rewrite (lstrip_digit d ds Hd), <- E. apply rev_involutive.
Qed.



Lemma cleaning_timer (w w' : World) (now : Q) (self : ScannerAndCleaner) (disk1 : Disk) :
  timer_file (disk_after (cleaning w w' now self disk1)) = timer_file disk1 /\
  postponed (how (cleaning w w' now self disk1)) = false.
Proof.
  unfold cleaning.
  destruct (_add_stat_properties w (map path (dirstoclean self)) "size" false true);
    [|now split].
  destruct (clean_loop w now (dirstoclean self) []) as [rm [u|e]]; [|now split].
  destruct (_count_erased_size w' self a) as [[total all_positions]|e]; now split.
Qed.

Lemma cleaner_tick (w w' : World) (now : Q) (self : ScannerAndCleaner)
    (disk : Disk) (interval : Z) :
  tick interval (timer_file disk) =
  (timer_file (disk_after (cleaner w w' now self disk interval)),
   postponed (how (cleaner w w' now self disk interval))).
Proof.
  unfold tick, cleaner.
  destruct (countdown (timer_file disk)) as [[n|]|e]; simpl; try reflexivity.
  destruct (cleaning_timer w w' now self (write_timer disk (str interval))) as [T P].
  now rewrite T, P.
Qed.

Lemma launches_ticks (env : nat -> World * World * Q) (self : ScannerAndCleaner)
    (interval : Z) (n k : nat) (disk : Disk) :
  map postponed (fst (launches env self interval k n disk)) =
  ticks interval n (timer_file disk).
Proof.
  revert k disk. induction n as [|n IH]; intros k disk; simpl.
  - reflexivity.
  - destruct (env k) as [[w w'] now].
    specialize (IH (S k) (disk_after (cleaner w w' now self disk interval))).
    destruct (launches env self interval (S k) n
                (disk_after (cleaner w w' now self disk interval))) as [ends d].
    simpl in *. rewrite IH, (cleaner_tick w w' now self disk interval). reflexivity.
Qed.

(* ================================================================= *)
(** ** Facts about [scan] *)

Lemma dict_get_set {V : Type} (k k' : string) (v : V) (d : list (string * V)) :
  dict_get k (dict_set k' v d) = if String.eqb k k' then Some v else dict_get k d.
Proof.
  induction d as [|[k0 v0] d IH]; simpl.
  - reflexivity.
  - destruct (String.eqb_spec k' k0) as [-> |D]; simpl.
    + now destruct (String.eqb k k0).
    + rewrite IH. destruct (String.eqb_spec k k0) as [-> |D'].
      * destruct (String.eqb_spec k0 k') as [E|_]; [|reflexivity].
        now elim D.
      * reflexivity.
Qed.

Lemma dict_get_In {V : Type} (k : string) (v : V) (d : list (string * V)) :
  dict_get k d = Some v -> In (k, v) d.
Proof.
  induction d as [|[k0 v0] d IH]; simpl; intro H.
  - discriminate.
  - destruct (String.eqb_spec k k0) as [-> |D].
    + inversion H. now left.
    + right. now apply IH.
Qed.

Lemma dict_set_nodup {V : Type} (k : string) (v : V) (d : list (string * V)) :
  NoDup (keys d) -> NoDup (keys (dict_set k v d)).
Proof.
  induction d as [|[k0 v0] d IH]; simpl; intro N.
  - constructor; [intros []|constructor].
  - destruct (String.eqb_spec k k0) as [-> |D]; simpl.
    + exact N.
    + inversion N as [|? ? NI N']; subst. constructor.
      * intro I. apply keys_dict_set in I. destruct I as [E|I]; [now elim D|contradiction].
      * now apply IH.
Qed.

Lemma In_dict_get {V : Type} (k : string) (v : V) (d : list (string * V)) :
  NoDup (keys d) -> In (k, v) d -> dict_get k d = Some v.
Proof.
  induction d as [|[k0 v0] d IH]; simpl; intros N I.
  - contradiction.
  - inversion N as [|? ? NI N']; subst.
    destruct I as [E|I].
    + inversion E; subst. now rewrite String.eqb_refl.
    + destruct (String.eqb_spec k k0) as [-> |D].
      * exfalso. apply NI. apply (in_map fst) in I. exact I.
      * now apply IH.
Qed.

Lemma strings_hashable (l : list string) :
  existsb unhashable (map JStr l) = false.
Proof.
  induction l as [|x l IH]; simpl; [reflexivity|exact IH].
Qed.


Lemma new_content_loop_valid (d : list (string * json)) (key : string)
    (content_set : list (string * list string)) :
  valid_snapshot d ->
  dict_get key d = None ->
  forall new_content,
    NoDup (keys new_content) ->
    In key (map fst content_set) \/
      dict_get key new_content = Some (JStr new_directory_message) ->
    exists result,
      new_content_loop (JObj d) content_set new_content = Ok result /\
      NoDup (keys result) /\
      dict_get key result = Some (JStr new_directory_message).
Proof.
  intros V A.
  induction content_set as [|[k current] rest IH]; intros nc N H.
  - destruct H as [[]|H]. exists nc. now repeat split.
  - cbn [new_content_loop subscript bind].
    destruct (dict_get k d) as [previous|] eqn:G.
    + destruct (V k previous (dict_get_In _ _ _ G)) as [l ->].
      unfold difference, iterated_strs. rewrite strings_hashable. cbn [bind].
      assert (Kk : key <> k) by (intros ->; congruence).
      apply IH.
      * destruct (filter _ current); [exact N|now apply dict_set_nodup].
      * simpl in H. destruct H as [[E|H]|H]; [now elim Kk|now left|right].
        destruct (filter _ current); [exact H|].
        rewrite dict_get_set. destruct (String.eqb_spec key k); [contradiction|exact H].
    + apply IH.
      * now apply dict_set_nodup.
      * rewrite dict_get_set. destruct (String.eqb_spec key k) as [-> |D]; [now right|].
        simpl in H. destruct H as [[E|H]|H]; [now elim D|now left|now right].
Qed.

(** C9, amended: against a valid stored scan in which the key of a
    watched directory is absent, the scan reports new content, and in the
    list of new files and directories it records under the key of that
    directory the fixed message of a new directory and nothing else: no
    difference is computed and the entries of the directory are not named
    under its key.  When the sizes are ranked, the section appended to the
    report is made of that list and of the top sizes, and the notification
    carries that list.  The top sizes are ranked without regard to the
    stored scan and can name entries of the directory. *)
Theorem new_directory_message_only (w : World) (self : ScannerAndCleaner) (disk : Disk)
    (d : list (string * json)) (key : string) (current : list string) :
  watchdirs_file disk = Json (JObj d) ->
  valid_snapshot d ->
  In (key, current) (watchdirs_content_set self) ->
  dict_get key d = None ->
  exists new_content,
    scan_changes self disk = (_write_watchdirs self disk, Ok (NewFound new_content)) /\
    dict_get key new_content = Some (JStr new_directory_message) /\
    (forall v, In (key, v) new_content -> v = JStr new_directory_message) /\
    (forall top, top_size_things w self = Ok top ->
       scan w self disk =
       (append_report (_write_watchdirs self disk)
          (ScanSection (NewFound new_content) (ntopfiles self) top),
        Ok (set_notify self (notify_report self ++ [ScanNotice (NewFound new_content)])))).
Proof.
  intros F V I A.
  destruct (new_content_loop_valid d key (watchdirs_content_set self) V A [])
    as [result [L [N G]]].
  - constructor.
  - left. apply (in_map fst) in I. exact I.
  - exists result.
    assert (S : scan_changes self disk = (_write_watchdirs self disk, Ok (NewFound result))).
    { unfold scan_changes. rewrite F, L.
      destruct result; [discriminate|reflexivity]. }
    split; [exact S|]. split; [exact G|]. split.
    + intros v Iv. apply (In_dict_get _ _ _ N) in Iv. congruence.
    + intros top T. unfold scan. now rewrite S, T.
Qed.

(** C9, as stated, fails: [/B] is watched and holds p and q, the stored
    scan only has [/A]; the report has the message for [/B] and lists
    neither p nor q. *)
Lemma new_directory_entries_not_listed :
  let self := init watched_A_B ["/A"; "/B"] 20 [] in
  dict_get "/B" (watchdirs_content_set self) = Some ["/B/p"; "/B/q"] /\
  exists report,
    snd (scan_changes self disk_with_A) = Ok report /\
    report = NewFound [("/A", JArr [JStr "/A/z"]); ("/B", JStr new_directory_message)] /\
    ~ entry_reported report "/B/p".
Proof.
  split; [reflexivity|].
  eexists. split; [reflexivity|]. split; [reflexivity|].
  intros [nc [key [l [E [I J]]]]]. inversion E; subst; clear E.
  destruct I as [I|[I|[]]]; inversion I; subst.
  destruct J as [J|[]]. discriminate J.
Qed.

(* ================================================================= *)
(** ** Entries skipped by the probe *)

(** An entry that vanished or on which the external tool fails yields no
    row, in size mode and in age mode. *)
Lemma vanished_no_row (w : World) (stattype p : string) :
  (is_file w p = true /\ stat w p = None) \/
  (is_file w p = false /\ du w p = None /\ find w p = None) ->
  stat_of w stattype p = Ok None.
Proof.
  unfold stat_of. intros [[F S]|[F [D N]]]; rewrite F.
  - now rewrite S.
  - rewrite D, N. now destruct (String.eqb stattype "size").
Qed.

(** Such an entry is skipped and the rest of the batch is processed as if
    it were not there. *)
Lemma skipped_entry_ignored (w : World) (stattype p : string) (l1 l2 : list string)
    (sorted reversed : bool) :
  stat_of w stattype p = Ok None ->
  _add_stat_properties w (l1 ++ p :: l2) stattype sorted reversed =
  _add_stat_properties w (l1 ++ l2) stattype sorted reversed.
Proof.
  intro H. unfold _add_stat_properties. now rewrite (stat_loop_skip _ _ _ l1 l2 H).
Qed.

Lemma split_line (line rest : string) :
  no_LF line = true ->
  split LF (line ++ String LF rest)%string = line :: split LF rest.
Proof.
  induction line as [|c line IH]; simpl; intro H.
  - reflexivity.
  - apply andb_prop in H. destruct H as [Hc Hl].
    apply negb_true_iff in Hc. rewrite Hc, (IH Hl). reflexivity.
Qed.

Lemma split_one_line (line : string) :
  no_LF line = true ->
  split LF (line ++ String LF EmptyString)%string = [line; EmptyString].
Proof.
  intro H. now rewrite split_line.
Qed.

Lemma nothing_before_empty (s : string) : String.ltb s EmptyString = false.
Proof.
  now destruct s.
Qed.

(** In age mode every directory for which [find] prints exactly one line,
    that is a directory with one file, makes the probe raise: after the
    sort the element of index 1 is the empty string. *)
Lemma single_line_raises (w : World) (p line : string) :
  is_file w p = false ->
  find w p = Some (line ++ String LF EmptyString)%string ->
  no_LF line = true ->
  stat_of w "age" p = Raise ValueError.
Proof.
  intros F O L. unfold stat_of. rewrite F, O. cbn [String.eqb Ascii.eqb Bool.eqb].
  rewrite (split_one_line line L). cbn [List.length Nat.ltb Nat.leb].
  cbn [sort fold_right insert ahead]. rewrite nothing_before_empty.
  reflexivity.
Qed.

(** In age mode, when [find] prints two lines, the value of the directory
    is read from the one that sorts lower, the older file. *)
Lemma older_line_read (w : World) (p older newer : string) :
  is_file w p = false ->
  find w p = Some (older ++ String LF (newer ++ String LF EmptyString))%string ->
  no_LF older = true -> no_LF newer = true ->
  String.ltb older newer = true ->
  stat_of w "age" p =
  match Py.int (hd EmptyString (split "." older)) with
  | Some n => Ok (Some (p, inject_Z n))
  | None => Raise ValueError
  end.
Proof.
  intros F O L1 L2 Lt. unfold stat_of. rewrite F, O. cbn [String.eqb Ascii.eqb Bool.eqb].
  rewrite (split_line older _ L1), (split_one_line newer L2).
  cbn [List.length Nat.ltb Nat.leb].
  cbn [sort fold_right insert ahead]. rewrite nothing_before_empty.
  cbn [insert ahead]. rewrite Lt. cbn [insert ahead]. rewrite nothing_before_empty.
  reflexivity.
Qed.

(* ================================================================= *)
(** ** Facts about the reports *)

Lemma top_rows_firstn (counter : nat) (all_content : list row) :
  top_rows counter all_content = firstn counter all_content.
Proof.
  revert all_content. induction counter as [|c IH]; intros [|r rest]; simpl;
    congruence.
Qed.

Lemma top_rows_length (counter : nat) (all_content : list row) :
  List.length (top_rows counter all_content) = Nat.min counter (List.length all_content).
Proof.
  rewrite top_rows_firstn. apply length_firstn.
Qed.

Lemma diff_sum_app (l1 l2 : list (string * position)) :
  (diff_sum (l1 ++ l2) == diff_sum l1 + diff_sum l2)%Q.
Proof.
  induction l1 as [|[k [d|]] l1 IH]; simpl.
  - lra.
  - lra.
  - exact IH.
Qed.

(** What [_count_erased_size] computes: every saved size gets the new size
    minus the saved one, or a hyphen when there is no new size, and the
    total is the sum of the differences. *)
Lemma erased_loop_spec (new_sizes : list (string * Q)) (saved_sizes : list row)
    (total : Q) (acc : list (string * position)) :
  snd (erased_loop new_sizes saved_sizes total acc)
    = acc ++ map (position_of new_sizes) saved_sizes /\
  (fst (erased_loop new_sizes saved_sizes total acc)
    == total + diff_sum (map (position_of new_sizes) saved_sizes))%Q.
Proof.
  revert total acc. induction saved_sizes as [|[k v] rest IH]; intros total acc.
  - simpl. split; [now rewrite app_nil_r|lra].
  - cbn [erased_loop map].
    assert (Hd : position_of new_sizes (k, v) =
                 (k, match dict_get k new_sizes with
                     | Some item => Diff (item - v)%Q
                     | None => Dash
                     end)) by reflexivity.
    rewrite Hd. clear Hd.
    destruct (dict_get k new_sizes) as [item|]; cbn [diff_sum].
    + destruct (IH (total + (item - v))%Q (acc ++ [(k, Diff (item - v)%Q)])) as [A B].
      split; [now rewrite A, <- app_assoc|].
      rewrite B. lra.
    + destruct (IH total (acc ++ [(k, Dash)])) as [A B].
      split; [now rewrite A, <- app_assoc|exact B].
Qed.

(** An ignored entry is never handed to [_erase_subs]. *)
Lemma ignored_never_removed (w : World) (now : Q) (item : One_path_item)
    (final : list string) (p : string) :
  final_files_to_remove w now item = Ok final ->
  ignored item p = true -> ~ In p final.
Proof.
  unfold final_files_to_remove. intros H G I.
  destruct (second_filter w now item (first_filter w item)) as [[files|rows]|e];
    simpl in H; [| |discriminate].
  - destruct files as [|f files].
    + inversion H; subst. contradiction.
    + unfold ignored in G. destruct (ignore item); [discriminate|discriminate].
  - inversion H; subst; clear H. apply filter_In in I. destruct I as [_ I].
    rewrite G in I. discriminate.
Qed.

(* ================================================================= *)
(** ** The claims of the specification *)

(** C1: in age mode the value of a directory should be the most recent
    modification time among the files inside it, as an integer.  After the
    descending sort of the lines of [find] the empty string left by
    [split] is the last element, not the first, so index 1 is the second
    most recent file ([older_line_read]): for a directory holding a file
    modified at 1700000100 and one modified at 1700000200 the probe
    returns 1700000100. *)
Theorem newest_file_missed :
  find two_files "/t/d" = Some (find_line "1700000100.0000000000" "/t/d/old"
                                ++ find_line "1700000200.5000000000" "/t/d/new")%string /\
  _add_stat_properties two_files ["/t/d"] "age" true true
    = Ok [("/t/d", inject_Z 1700000100)].
Proof.
  split; reflexivity.
Qed.

(** C2: a vanished entry is skipped ([skipped_entry_ignored]), but the
    probe does raise on some directory contents: in age mode a directory
    with exactly one file makes [int] read the empty string
    ([single_line_raises]), the [ValueError] is not caught, and the call
    of [cleaner] that asked for the ages ends without a report. *)
Theorem one_file_directory_raises :
  _add_stat_properties one_file ["/t/d"] "age" true true = Raise ValueError /\
  how (cleaner one_file one_file 0 (object 20 [keep_one "/t" []]) empty_disk 14)
    = Crashed ValueError /\
  report_file (disk_after
    (cleaner one_file one_file 0 (object 20 [keep_one "/t" []]) empty_disk 14)) = [].
Proof.
  repeat split; reflexivity.
Qed.

(** C3: the reported difference of a target should be the size before the
    cleaning minus the size after it.  The program subtracts the other way
    round: a target of 100 bytes that is left with 40 bytes is reported
    with -60, and so is the total. *)
Theorem reclaimed_sign_reversed :
  _add_stat_properties before_clean ["/c"] "size" false true = Ok [("/c", 100%Q)] /\
  _add_stat_properties after_clean ["/c"] "size" false true = Ok [("/c", 40%Q)] /\
  report_file (disk_after
    (cleaner before_clean after_clean 0 (object 20 [full_clean "/c"]) empty_disk 14))
  = [CleanSection [("/c", Diff (-60 # 1))] (-60 # 1)].
Proof.
  repeat split; reflexivity.
Qed.

(** C4: the top of the report should hold the biggest entries of all the
    watched directories together, biggest first.  The program sorts the
    entries of each watched directory and concatenates the lists without
    merging them: with a 1 byte file in the first directory and a 10 byte
    file in the second, the top 1 is the 1 byte file and the top 2 is in
    ascending order. *)
Theorem top_sizes_not_merged :
  top_size_things two_watched (init two_watched ["/a"; "/b"] 1 [])
    = Ok [("/a/small", 1%Q)] /\
  top_size_things two_watched (init two_watched ["/a"; "/b"] 2 [])
    = Ok [("/a/small", 1%Q); ("/b/big", 10%Q)].
Proof.
  split; reflexivity.
Qed.

(** C5: with [num_to_keep] the entries kept should be the most recently
    modified ones.  For a directory the probe reads the second line of the
    sorted output of [find] (see C1), so the order of the ages of
    directories is not the order of their most recent modifications:
    [/g/A] holds the most recent file of all (1700000100) and [/g/B] was
    last modified at 1700000060, the probe returns 1700000010 for [/g/A]
    and 1700000050 for [/g/B], and with one entry to keep the program
    removes [/g/A], the most recently modified entry, and keeps the
    other. *)
Theorem keep_count_removes_newest_directory :
  find two_directories "/g/A"
    = Some (find_line "1700000010.0000000000" "/g/A/old"
            ++ find_line "1700000100.0000000000" "/g/A/new")%string /\
  find two_directories "/g/B"
    = Some (find_line "1700000050.0000000000" "/g/B/old"
            ++ find_line "1700000060.0000000000" "/g/B/new")%string /\
  first_filter two_directories (keep_one "/g" []) = ["/g/A"; "/g/B"] /\
  _add_stat_properties two_directories ["/g/A"; "/g/B"] "age" true true
    = Ok [("/g/B", inject_Z 1700000050); ("/g/A", inject_Z 1700000010)] /\
  final_files_to_remove two_directories 0 (keep_one "/g" []) = Ok ["/g/A"].
Proof.
  repeat split; reflexivity.
Qed.

(** C6: with [remove_older] an entry should be removed only when it is
    older than the cutoff.  For the same reason (see C1) a directory whose
    most recent file is 5 days old, and which also holds a file of 40
    days, gets the age of the older file and is removed under a limit of
    30 days. *)
Theorem remove_older_removes_recent_directory :
  find recent_directory "/m/d"
    = Some (find_line "8208000.0000000000" "/m/d/new"
            ++ find_line "5184000.0000000000" "/m/d/old")%string /\
  (day_100 - inject_Z 8208000 == inject_Z (5 * day))%Q /\
  (day_100 - inject_Z (30 * 86400) <= inject_Z 8208000)%Q /\
  _add_stat_properties recent_directory ["/m/d"] "age" true true
    = Ok [("/m/d", inject_Z 5184000)] /\
  final_files_to_remove recent_directory day_100 older_30 = Ok ["/m/d"].
Proof.
  repeat split; try reflexivity.
  vm_compute. discriminate.
Qed.

(** C7: an ignored entry is never removed ([ignored_never_removed]), but
    it does count for [num_to_keep]: the ignore filter runs after the most
    recent entries were set apart.  With one entry to keep, the ignored
    [/g/keepme] being the most recent makes the program remove both [/g/A]
    and [/g/B]; without it [/g/A] is kept. *)
Theorem ignored_entry_counts_as_kept :
  final_files_to_remove three_games 100 (keep_one "/g" ["keepme"])
    = Ok ["/g/A"; "/g/B"] /\
  final_files_to_remove two_games 100 (keep_one "/g" ["keepme"])
    = Ok ["/g/B"].
Proof.
  split; reflexivity.
Qed.

Lemma superscript_cleaner (w w' : World) (now : Q) (self : ScannerAndCleaner)
    (interval : Z) :
  cleaner w w' now self disk_with_superscript interval =
  {| disk_after := disk_with_superscript; self_after := self; erased := [];
     how := Crashed ValueError |}.
Proof.
  reflexivity.
Qed.

Lemma superscript_launches (env : nat -> World * World * Q) (self : ScannerAndCleaner)
    (interval : Z) (n k : nat) :
  launches env self interval k n disk_with_superscript
  = (repeat (Crashed ValueError) n, disk_with_superscript).
Proof.
  revert k. induction n as [|n IH]; intro k; [reflexivity|].
  cbn [launches]. destruct (env k) as [[w w'] now].
  rewrite superscript_cleaner. cbn [disk_after how]. now rewrite IH.
Qed.

(** C8: a timer file whose content is not a number should make the
    cleaning start over with the counter reset.  The program tests the
    content with [isdigit] before it calls [int] on it; [isdigit] accepts
    characters [int] does not read, such as the superscript two: with
    such a timer file [int] raises [ValueError], which nothing catches,
    before the timer file is rewritten.  Nothing is cleaned, the timer
    file stays as it is, and every later launch ends the same way. *)
Theorem superscript_timer_raises (env : nat -> World * World * Q) (w w' : World)
    (now : Q) (self : ScannerAndCleaner) (interval : Z) (n : nat) :
  isdigit superscript_two = true /\
  Py.int superscript_two = None /\
  cleaner w w' now self disk_with_superscript interval =
    {| disk_after := disk_with_superscript; self_after := self; erased := [];
       how := Crashed ValueError |} /\
  launches env self interval 0 n disk_with_superscript
    = (repeat (Crashed ValueError) n, disk_with_superscript).
Proof.
  split; [reflexivity|]. split; [reflexivity|]. split.
  - apply superscript_cleaner.
  - apply superscript_launches.
Qed.

(* ================================================================= *)
(** ** The statements at concrete machines *)

(** Five entries with distinct ages and two to keep. *)
Lemma keep_count_selects_oldest_witness :
  exists kept sel : list row,
    second_filter five_logs 0 keep_two (first_filter five_logs keep_two) = Ok (Rows sel) /\
    Permutation (map fst (kept ++ sel)) (first_filter five_logs keep_two) /\
    (forall a b, In a kept -> In b sel -> (snd b < snd a)%Q) /\
    Z.of_nat (List.length kept) = 2 /\
    Z.of_nat (List.length sel) = 3 /\
    third_filter keep_two (Rows sel) = Ok (map fst sel).
Proof.
  assert (F : first_filter five_logs keep_two = ["/l/1"; "/l/5"; "/l/3"; "/l/2"; "/l/4"])
    by reflexivity.
  destruct (keep_count_selects_oldest five_logs 0 keep_two
              (first_filter five_logs keep_two)) as [kept [sel H]].
  - reflexivity.
  - rewrite F. repeat constructor; simpl; intuition discriminate.
  - rewrite F. intros p I. simpl in I.
    repeat (destruct I as [<-|I]; [eexists; reflexivity|]). contradiction.
  - rewrite F. intros p q v u Ip Iq Ne Sp Sq E. simpl in Ip, Iq.
    repeat (destruct Ip as [<-|Ip]; [|]); try contradiction;
      repeat (destruct Iq as [<-|Iq]; [|]); try contradiction;
      try (now elim Ne);
      vm_compute in Sp; vm_compute in Sq; inversion Sp; inversion Sq; subst;
      vm_compute in E; discriminate E.
  - exists kept, sel.
    destruct H as [H1 [H2 [_ [H4 [_ [H6 H7]]]]]].
    destruct H6 as [H6a H6b]; [rewrite F; reflexivity|].
    split; [exact H1|]. split; [exact H2|]. split; [exact H4|].
    split; [exact H6a|]. split; [exact H6b|]. apply H7. reflexivity.
Defined.

(** Keeping 2 of 5 entries with distinct ages removes the 3 oldest. *)
Example keep_two_of_five :
  final_files_to_remove five_logs 0 keep_two = Ok ["/l/3"; "/l/2"; "/l/1"].
Proof. reflexivity. Qed.

(** With 2 candidates or fewer nothing is removed. *)
Example keep_two_of_two :
  final_files_to_remove two_games 0
    {| path := "/g"; type_to_del := "a"; num_to_keep := 2; remove_older := None;
       ignore := [] |} = Ok [].
Proof. reflexivity. Qed.

(** Entries 5, 10, 31 and 40 days old and a threshold of 30 days. *)
Lemma remove_older_selects_from_first_old_witness :
  exists rows exempt sel : list row,
    _add_stat_properties four_ages (first_filter four_ages older_30) "age" true true
      = Ok rows /\
    StronglySorted biggest_first rows /\
    rows = exempt ++ sel /\
    second_filter four_ages day_100 older_30 (first_filter four_ages older_30)
      = Ok (Rows sel) /\
    (forall r, In r exempt -> (day_100 - inject_Z (30 * 86400) <= snd r)%Q) /\
    (forall r, In r sel -> (snd r < day_100 - inject_Z (30 * 86400))%Q).
Proof.
  apply (remove_older_selects_from_first_old four_ages day_100 older_30
           (first_filter four_ages older_30) 30).
  - simpl. lia.
  - reflexivity.
  - intros p I. vm_compute in I.
    repeat (destruct I as [<-|I]; [eexists; reflexivity|]). contradiction.
Defined.

(** With 30 days and entries 5, 10, 31 and 40 days old, the entries of 31
    and 40 days are removed. *)
Example older_than_30_days :
  final_files_to_remove four_ages day_100 older_30 = Ok ["/m/31"; "/m/40"].
Proof. reflexivity. Qed.

(** An entry exactly 30 days old is kept. *)
Example exactly_30_days_kept :
  final_files_to_remove five_ages day_100 older_30 = Ok ["/m/31"; "/m/40"].
Proof. reflexivity. Qed.

(** [/B] is newly watched and holds two files with sizes; the stored
    scan only knows [/A]. *)
Lemma new_directory_message_only_witness :
  exists new_content,
    scan_changes (init sized_A_B ["/A"; "/B"] 20 []) disk_with_A =
      (_write_watchdirs (init sized_A_B ["/A"; "/B"] 20 []) disk_with_A,
       Ok (NewFound new_content)) /\
    dict_get "/B" new_content = Some (JStr new_directory_message) /\
    (forall v, In ("/B", v) new_content -> v = JStr new_directory_message) /\
    (forall top, top_size_things sized_A_B (init sized_A_B ["/A"; "/B"] 20 []) = Ok top ->
       scan sized_A_B (init sized_A_B ["/A"; "/B"] 20 []) disk_with_A =
       (append_report (_write_watchdirs (init sized_A_B ["/A"; "/B"] 20 []) disk_with_A)
          (ScanSection (NewFound new_content)
             (ntopfiles (init sized_A_B ["/A"; "/B"] 20 [])) top),
        Ok (set_notify (init sized_A_B ["/A"; "/B"] 20 [])
              (notify_report (init sized_A_B ["/A"; "/B"] 20 [])
               ++ [ScanNotice (NewFound new_content)])))).
Proof.
  apply (new_directory_message_only sized_A_B (init sized_A_B ["/A"; "/B"] 20 []) disk_with_A
           [("/A", JArr [JStr "/A/x"; JStr "/A/y"])] "/B" ["/B/p"; "/B/q"]).
  - reflexivity.
  - intros k v [E|[]]. inversion E. now exists ["/A/x"; "/A/y"].
  - right. left. reflexivity.
  - reflexivity.
Defined.

(** A directory without files between two files, one entry to keep. *)
Lemma unmeasurable_age_dropped_witness :
  second_filter with_empty_dir 0 (keep_one "/k" []) ["/k/a"; "/k/empty"; "/k/b"]
  = second_filter with_empty_dir 0 (keep_one "/k" []) ["/k/a"; "/k/b"].
Proof.
  refine (proj1 (proj1 (unmeasurable_age_dropped with_empty_dir 0 (keep_one "/k" [])
                          ["/k/a"] ["/k/b"] "/k/empty" _) _)).
  - right. split; [reflexivity|right; reflexivity].
  - left. reflexivity.
Defined.

(** The directory without files is removed by a full cleaning and left
    alone when one entry is to be kept. *)
Example empty_directory_and_policies :
  final_files_to_remove with_empty_dir 0 (full_clean "/k")
    = Ok ["/k/a"; "/k/empty"; "/k/b"] /\
  final_files_to_remove with_empty_dir 0 (keep_one "/k" []) = Ok ["/k/a"].
Proof. split; reflexivity. Qed.

(** The whole [scan] on the newly watched [/B]: the stored scan is
    rewritten and one section is appended to the report, with the entry
    that is new in [/A], the message for [/B], and no sizes since this
    machine measures none. *)
Example scan_new_directory :
  let self := init watched_A_B ["/A"; "/B"] 20 [] in
  fst (scan watched_A_B self disk_with_A) =
  {| watchdirs_file :=
       Json (JObj [("/A", JArr [JStr "/A/x"; JStr "/A/y"; JStr "/A/z"]);
                   ("/B", JArr [JStr "/B/p"; JStr "/B/q"])]);
     timer_file := None;
     report_file :=
       [ScanSection
          (NewFound [("/A", JArr [JStr "/A/z"]); ("/B", JStr new_directory_message)])
          20 []] |}.
Proof. reflexivity. Qed.

(** The same scan where the entries have sizes: the section lists p and q
    of [/B] among the top sizes, and has only the message under [/B]. *)
Example scan_new_directory_sized :
  let self := init sized_A_B ["/A"; "/B"] 20 [] in
  fst (scan sized_A_B self disk_with_A) =
  {| watchdirs_file :=
       Json (JObj [("/A", JArr [JStr "/A/x"; JStr "/A/y"; JStr "/A/z"]);
                   ("/B", JArr [JStr "/B/p"; JStr "/B/q"])]);
     timer_file := None;
     report_file :=
       [ScanSection
          (NewFound [("/A", JArr [JStr "/A/z"]); ("/B", JStr new_directory_message)])
          20 [("/A/z", 3%Q); ("/A/y", 2%Q); ("/A/x", 1%Q); ("/B/q", 70%Q); ("/B/p", 50%Q)]] |}.
Proof. reflexivity. Qed.

(** Fifteen launches on one machine with interval 14, from an empty disk:
    the 1st and the 15th clean, the others are postponed. *)
Example fifteen_launches :
  fst (launches (fun _ => (two_games, two_games, 0%Q))
         (object 20 [full_clean "/g"]) 14 0 15 empty_disk) =
  [Cleaned; Postponed; Postponed; Postponed; Postponed; Postponed; Postponed; Postponed;
   Postponed; Postponed; Postponed; Postponed; Postponed; Postponed; Cleaned].
Proof. vm_compute. reflexivity. Qed.

(* ================================================================= *)
(** ** More about [_add_stat_properties] *)

Lemma stat_loop_filter (w : World) (stattype : string) (filepaths : list string)
    (rows : list row) :
  stat_loop w stattype filepaths [] = Ok rows ->
  map fst rows = filter (has_value w stattype) filepaths.
Proof.
  revert rows. induction filepaths as [|p rest IH]; intros rows H.
  - simpl in H. now inversion H.
  - rewrite stat_loop_cons in H. cbn [filter]. unfold has_value at 1.
    destruct (stat_of w stattype p) as [o|e] eqn:E; simpl in H; [|discriminate].
    destruct (stat_loop w stattype rest []) as [rows'|e]; simpl in H; [|discriminate].
    inversion H; subst; clear H. specialize (IH rows' eq_refl).
    destruct o as [x|]; [|exact IH].
    simpl. now rewrite IH, (stat_of_path _ _ _ _ E).
Qed.

Lemma filter_length_le {A : Type} (f : A -> bool) (l : list A) :
  (List.length (filter f l) <= List.length l)%nat.
Proof.
  induction l as [|x l IH]; simpl; [lia|]. destruct (f x); simpl; lia.
Qed.

Lemma unsorted_probe_loop (w : World) (filepaths : list string) (stattype : string)
    (reversed : bool) (rows : list row) :
  _add_stat_properties w filepaths stattype false reversed = Ok rows ->
  stat_loop w stattype filepaths [] = Ok rows.
Proof.
  unfold _add_stat_properties. intro H.
  destruct (stat_loop w stattype filepaths []) as [raw|e]; simpl in H; [|discriminate].
  now inversion H.
Qed.

(** X1: without sorting, the probe returns the entries that have a value,
    in the order they were given, each with its value; it returns no
    more rows than it was given entries. *)
Theorem probe_keeps_input_order (w : World) (filepaths : list string)
    (stattype : string) (reversed : bool) (rows : list row) :
  _add_stat_properties w filepaths stattype false reversed = Ok rows ->
  map fst rows = filter (has_value w stattype) filepaths /\
  (forall r, In r rows -> stat_of w stattype (fst r) = Ok (Some r)) /\
  (List.length rows <= List.length filepaths)%nat.
Proof.
  unfold _add_stat_properties. intro H.
  destruct (stat_loop w stattype filepaths []) as [raw|e] eqn:E; simpl in H; [|discriminate].
  inversion H; subst; clear H.
  pose proof (stat_loop_filter _ _ _ _ E) as F. repeat split.
  - exact F.
  - intros r I. apply (stat_loop_rows _ _ _ _ E r I).
  - assert (L : List.length (map fst rows) = List.length rows) by apply length_map.
    rewrite <- L, F. apply filter_length_le.
Qed.

Lemma stat_loop_raises (w : World) (stattype : string) (filepaths : list string)
    (e : exn) :
  stat_loop w stattype filepaths [] = Raise e <->
  exists l1 p l2, filepaths = l1 ++ p :: l2 /\ stat_of w stattype p = Raise e /\
                  forall q, In q l1 -> exists r, stat_of w stattype q = Ok r.
Proof.
  induction filepaths as [|p rest IH].
  - split; [discriminate|]. intros [l1 [q [l2 [E _]]]]. now destruct l1.
  - rewrite stat_loop_cons. split.
    + intro H. destruct (stat_of w stattype p) as [o|e'] eqn:E; simpl in H.
      * destruct (stat_loop w stattype rest []) as [rows|e'] eqn:L; simpl in H;
          [discriminate|].
        inversion H; subst; clear H.
        destruct (proj1 IH eq_refl) as [l1 [q [l2 [E1 [E2 E3]]]]].
        exists (p :: l1), q, l2. subst rest. repeat split; [exact E2|].
        intros x [<-|I]; [eauto|now apply E3].
      * inversion H; subst. exists [], p, rest. repeat split; [exact E|]. intros q [].
    + intros [l1 [q [l2 [E1 [E2 E3]]]]]. destruct l1 as [|x l1]; simpl in E1.
      * inversion E1; subst. now rewrite E2.
      * inversion E1; subst.
        destruct (E3 x (or_introl eq_refl)) as [r Er]. rewrite Er. simpl.
        assert (L : stat_loop w stattype (l1 ++ q :: l2) [] = Raise e).
        { apply IH. exists l1, q, l2. repeat split; [exact E2|].
          intros y I. apply E3. now right. }
        now rewrite L.
Qed.

(** X2: the probe raises exactly when one of the entries makes it raise,
    with the exception of the first such entry, whatever the sorting
    asked for; the entries after it are not looked at. *)
Theorem probe_raises_at_first (w : World) (filepaths : list string)
    (stattype : string) (sorted reversed : bool) (e : exn) :
  _add_stat_properties w filepaths stattype sorted reversed = Raise e <->
  exists l1 p l2, filepaths = l1 ++ p :: l2 /\ stat_of w stattype p = Raise e /\
                  forall q, In q l1 -> exists r, stat_of w stattype q = Ok r.
Proof.
  rewrite <- stat_loop_raises. unfold _add_stat_properties.
  destruct (stat_loop w stattype filepaths []) as [rows|e']; simpl.
  - split; discriminate.
  - reflexivity.
Qed.

Lemma insert_smallest_first (x : row) (l : list row) :
  StronglySorted smallest_first l ->
  StronglySorted smallest_first (insert (@snd string Q) Qltb false x l).
Proof.
  induction 1 as [|y l S IH F]; simpl.
  - repeat constructor.
  - unfold ahead. destruct (Qltb (snd y) (snd x)) eqn:E.
    + constructor; [exact IH|].
      apply Qltb_lt in E.
      eapply Permutation_Forall.
      * apply Permutation_sym, insert_perm.
      * constructor; [|exact F]. unfold smallest_first. lra.
    + apply Qltb_ge in E. constructor.
      * now constructor.
      * constructor; [exact E|].
        eapply Forall_impl; [|exact F].
        unfold smallest_first. intros a Ha. lra.
Qed.

Lemma sort_smallest_first (l : list row) :
  StronglySorted smallest_first (sort (@snd string Q) Qltb false l).
Proof.
  induction l as [|x l IH]; simpl.
  - constructor.
  - now apply insert_smallest_first.
Qed.

Lemma ahead_differs (reversed : bool) (x y : row) (v : Q) :
  ahead (@snd string Q) Qltb reversed y x = true ->
  Qeq_bool (snd y) v = true -> Qeq_bool (snd x) v = false.
Proof.
  intros A E. apply Qeq_bool_iff in E.
  destruct (Qeq_bool (snd x) v) eqn:X; [|reflexivity].
  apply Qeq_bool_iff in X. exfalso.
  unfold ahead in A. destruct reversed; apply Qltb_lt in A; lra.
Qed.

Lemma insert_with_value (reversed : bool) (v : Q) (x : row) (l : list row) :
  with_value v (insert (@snd string Q) Qltb reversed x l) = with_value v (x :: l).
Proof.
  unfold with_value. induction l as [|y l IH]; [reflexivity|].
  cbn [insert]. destruct (ahead snd Qltb reversed y x) eqn:A; [|reflexivity].
  cbn [filter] in *. rewrite IH.
  destruct (Qeq_bool (snd y) v) eqn:Y; [|reflexivity].
  now rewrite (ahead_differs reversed x y v A Y).
Qed.

Lemma sort_with_value (reversed : bool) (v : Q) (l : list row) :
  with_value v (sort (@snd string Q) Qltb reversed l) = with_value v l.
Proof.
  induction l as [|x l IH]; [reflexivity|].
  cbn [sort fold_right]. fold (sort (@snd string Q) Qltb reversed l).
  rewrite insert_with_value. unfold with_value in *. cbn [filter]. now rewrite IH.
Qed.

(** X3: the sort of the probe returns the same rows, ordered by value in
    the direction asked for, and is stable: rows of equal value keep the
    order of the entries. *)
Theorem probe_sort_stable (w : World) (filepaths : list string) (stattype : string)
    (reversed : bool) (raw : list row) :
  _add_stat_properties w filepaths stattype false reversed = Ok raw ->
  exists rows,
    _add_stat_properties w filepaths stattype true reversed = Ok rows /\
    Permutation rows raw /\
    StronglySorted (if reversed then biggest_first else smallest_first) rows /\
    forall v, with_value v rows = with_value v raw.
Proof.
  unfold _add_stat_properties. intro H.
  destruct (stat_loop w stattype filepaths []) as [l|e]; simpl in H; [|discriminate].
  inversion H; subst; clear H.
  exists (sort (@snd string Q) Qltb reversed raw). repeat split.
  - apply sort_perm.
  - destruct reversed; [apply sort_biggest_first|apply sort_smallest_first].
  - intro v. apply sort_with_value.
Qed.

(* ================================================================= *)
(** ** The timer file read back *)

Lemma uint_digits (d : Decimal.uint) :
  forallb is_digit (list_ascii_of_string (NilEmpty.string_of_uint d)) = true.
Proof.
  induction d; simpl; try reflexivity; exact IHd.
Qed.

Lemma int_digits_acc (d : Decimal.uint) (acc : positive) :
  int_digits (list_ascii_of_string (NilEmpty.string_of_uint d)) (Z.pos acc) true
  = Some (Z.pos (Pos.of_uint_acc d acc)).
Proof.
  revert acc. induction d; intro acc; cbn [NilEmpty.string_of_uint list_ascii_of_string
    int_digits Pos.of_uint_acc]; try reflexivity;
    match goal with
    | |- context [is_digit ?c] => change (is_digit c) with true; cbv iota
    end;
    rewrite <- IHd; f_equal;
    match goal with
    | |- context [digit_val ?c] =>
        let v := eval vm_compute in (digit_val c) in change (digit_val c) with v
    end; lia.
Qed.

Lemma int_digits_uint (d : Decimal.uint) (prev : bool) :
  d <> Decimal.Nil \/ prev = true ->
  int_digits (list_ascii_of_string (NilEmpty.string_of_uint d)) 0 prev
  = Some (Z.of_N (Pos.of_uint d)).
Proof.
  revert prev. induction d; intros prev H;
    cbn [NilEmpty.string_of_uint list_ascii_of_string int_digits Pos.of_uint].
  - destruct H as [H| ->]; [now elim H|reflexivity].
  - change (is_digit "0") with true. cbv iota.
    change (10 * 0 + digit_val "0") with 0. apply IHd. now right.
  - change (is_digit "1") with true. cbv iota. apply (int_digits_acc d 1).
  - change (is_digit "2") with true. cbv iota. apply (int_digits_acc d 2).
  - change (is_digit "3") with true. cbv iota. apply (int_digits_acc d 3).
  - change (is_digit "4") with true. cbv iota. apply (int_digits_acc d 4).
  - change (is_digit "5") with true. cbv iota. apply (int_digits_acc d 5).
  - change (is_digit "6") with true. cbv iota. apply (int_digits_acc d 6).
  - change (is_digit "7") with true. cbv iota. apply (int_digits_acc d 7).
  - change (is_digit "8") with true. cbv iota. apply (int_digits_acc d 8).
  - change (is_digit "9") with true. cbv iota. apply (int_digits_acc d 9).
Qed.

Lemma str_pos (p : positive) :
  str (Z.pos p) = NilEmpty.string_of_uint (Pos.to_uint p).
Proof.
  unfold str. simpl. unfold NilZero.string_of_uint.
  pose proof (DecimalPos.Unsigned.to_uint_nonnil p) as N.
  destruct (Pos.to_uint p); [now elim N|reflexivity..].
Qed.

Lemma str_digits (n : Z) :
  0 <= n -> forallb is_digit (list_ascii_of_string (str n)) = true.
Proof.
  intro H. destruct n as [|p|p]; [reflexivity| |lia].
  rewrite str_pos. apply uint_digits.
Qed.

Lemma digits_isdigit (cs : list ascii) :
  forallb is_digit cs = true -> forallb is_digit_str cs = true.
Proof.
  intro H. apply forallb_forall. intros c I.
  unfold is_digit_str. now rewrite (proj1 (forallb_forall _ _) H c I).
Qed.

Lemma str_isdigit (n : Z) : 0 <= n -> isdigit (str n) = true.
Proof.
  intro H. destruct n as [|p|p]; [reflexivity| |lia].
  pose proof (digits_isdigit _ (str_digits (Z.pos p) H)) as D.
  rewrite str_pos in *. unfold isdigit.
  pose proof (DecimalPos.Unsigned.to_uint_nonnil p) as N.
  destruct (Pos.to_uint p); [now elim N|exact D..].
Qed.

Lemma int_of_digits (s : string) :
  forallb is_digit (list_ascii_of_string s) = true ->
  Py.int s = int_digits (list_ascii_of_string s) 0 false.
Proof.
  unfold Py.int. intro H.
  destruct (list_ascii_of_string s) as [|c cs] eqn:E; [reflexivity|].
  rewrite (strip_digits _ H).
  simpl in H. apply andb_prop in H. destruct H as [Hc _].
  destruct c as [[] [] [] [] [] [] [] []]; try discriminate Hc; reflexivity.
Qed.

(** What [str] writes of a count, [int] reads back. *)
Lemma int_str (n : Z) : 0 <= n -> Py.int (str n) = Some n.
Proof.
  intro H. destruct n as [|p|p]; [reflexivity| |lia].
  rewrite (int_of_digits _ (str_digits (Z.pos p) H)), str_pos.
  rewrite int_digits_uint.
  - now rewrite DecimalPos.Unsigned.of_to.
  - left. apply DecimalPos.Unsigned.to_uint_nonnil.
Qed.

Lemma countdown_str (n : Z) :
  0 <= n -> countdown (Some (str n)) = Ok (if 1 <? n then Some n else None).
Proof.
  intro H. unfold countdown. now rewrite (str_isdigit n H), (int_str n H).
Qed.

Lemma str_neg_isdigit (p : positive) : isdigit (str (Z.neg p)) = false.
Proof.
  reflexivity.
Qed.

Lemma ticks_S (interval : Z) (n : nat) (timer : option string) :
  ticks interval (S n) timer =
  snd (tick interval timer) :: ticks interval n (fst (tick interval timer)).
Proof.
  reflexivity.
Qed.

Lemma tick_str (interval n : Z) :
  0 <= n ->
  tick interval (Some (str n)) =
  if 1 <? n then (Some (str (n - 1)), true) else (Some (str interval), false).
Proof.
  intro H. unfold tick. rewrite (countdown_str n H). now destruct (1 <? n).
Qed.

(** A call of [cleaner] that finds the timer file as [str] wrote it. *)
Lemma cleaner_on_count (w w' : World) (now : Q) (self : ScannerAndCleaner)
    (disk : Disk) (interval n : Z) :
  timer_file disk = Some (str n) -> 0 <= n ->
  cleaner w w' now self disk interval =
  if 1 <? n then postponed_run self disk n
  else cleaning w w' now self (write_timer disk (str interval)).
Proof.
  intros T N. unfold cleaner. rewrite T, (countdown_str n N). now destruct (1 <? n).
Qed.

Lemma disk_before_S (env : nat -> World * World * Q) (self : ScannerAndCleaner)
    (interval : Z) (k : nat) (disk : Disk) :
  disk_before env self interval (S k) disk
  = disk_after (launch env self interval k disk).
Proof.
  unfold launch. cbn [disk_before]. now destruct (env k) as [[w w'] now].
Qed.

(** The timer file after launch [m * interval + j]. *)
Lemma timer_after_launch (env : nat -> World * World * Q) (self : ScannerAndCleaner)
    (disk : Disk) (interval : Z) :
  1 <= interval ->
  timer_file disk = None ->
  forall k m j : nat,
    k = (m * Z.to_nat interval + j)%nat -> Z.of_nat j < interval ->
    timer_file (disk_before env self interval (S k) disk)
    = Some (str (interval - Z.of_nat j)).
Proof.
  intros I T. induction k as [|k IH]; intros m j E J.
  - assert (j = O) by lia. subst j.
    rewrite disk_before_S. unfold launch. cbn [disk_before].
    destruct (env O) as [[w w'] now]. unfold cleaner. rewrite T. cbn [countdown].
    rewrite (proj1 (cleaning_timer w w' now self (write_timer disk (str interval)))).
    cbn [write_timer timer_file]. do 2 f_equal. lia.
  - rewrite disk_before_S. unfold launch.
    destruct (env (S k)) as [[w w'] now].
    destruct j as [|j].
    + destruct m as [|m]; [lia|].
      assert (P : timer_file (disk_before env self interval (S k) disk) = Some (str 1)).
      { rewrite (IH m (Z.to_nat interval - 1)%nat) by lia. do 2 f_equal. lia. }
      rewrite (cleaner_on_count _ _ _ _ _ _ 1 P) by lia.
      change (1 <? 1) with false. cbv iota.
      rewrite (proj1 (cleaning_timer w w' now self _)).
      cbn [write_timer timer_file]. do 2 f_equal. lia.
    + assert (P : timer_file (disk_before env self interval (S k) disk)
                  = Some (str (interval - Z.of_nat j))).
      { apply (IH m j); lia. }
      rewrite (cleaner_on_count _ _ _ _ _ _ _ P) by lia.
      assert (G : (1 <? interval - Z.of_nat j) = true) by (apply Z.ltb_lt; lia).
      rewrite G. cbn [postponed_run disk_after write_timer timer_file].
      do 2 f_equal. lia.
Qed.

(** X4: the countdown for every interval from 1 up to the biggest number
    [str] writes, from no timer file, when every launch finds the data
    files as the launch before left them.  Launch [m * interval + j]
    (launches counted from 0, [j < interval]): for [j = 0] it takes the
    cleaning branch, that is it writes the interval into the timer file
    and goes through the cleaning (which can end in an exception), after
    finding 1 in the timer file if it is not the first launch; for
    [j > 0] it finds [interval - j + 1] in the timer file and is the
    early return that writes [interval - j] and does nothing else. *)
Theorem countdown_any_interval (env : nat -> World * World * Q)
    (self : ScannerAndCleaner) (disk : Disk) (interval : Z) (m j : nat)
    (w w' : World) (now : Q) :
  1 <= interval < 10 ^ 4300 ->
  timer_file disk = None ->
  Z.of_nat j < interval ->
  env (m * Z.to_nat interval + j)%nat = (w, w', now) ->
  let k := (m * Z.to_nat interval + j)%nat in
  let found := disk_before env self interval k disk in
  (j = O ->
     (m <> O -> timer_file found = Some (str 1)) /\
     launch env self interval k disk
       = cleaning w w' now self (write_timer found (str interval))) /\
  (j <> O ->
     timer_file found = Some (str (interval - Z.of_nat j + 1)) /\
     launch env self interval k disk
       = postponed_run self found (interval - Z.of_nat j + 1)).
Proof.
  intros [I _] T J E k found. split.
  - intros ->. 
    assert (F : m <> O -> timer_file found = Some (str 1)).
    { intro M. destruct m as [|m]; [now elim M|].
      unfold found, k.
      replace (S m * Z.to_nat interval + 0)%nat
        with (S (m * Z.to_nat interval + (Z.to_nat interval - 1)))%nat by lia.
      rewrite (timer_after_launch env self disk interval I T _ m (Z.to_nat interval - 1)%nat
                 eq_refl) by lia.
      do 2 f_equal. lia. }
    split; [exact F|].
    unfold launch. fold k. unfold k at 1. rewrite E. fold found.
    destruct m as [|m].
    + unfold cleaner. unfold found, k. cbn [Nat.mul Nat.add disk_before].
      now rewrite T.
    + rewrite (cleaner_on_count _ _ _ _ _ _ 1 (F ltac:(discriminate))) by lia.
      reflexivity.
  - intro NZ. destruct j as [|j]; [now elim NZ|].
    assert (F : timer_file found = Some (str (interval - Z.of_nat (S j) + 1))).
    { unfold found, k.
      replace (m * Z.to_nat interval + S j)%nat
        with (S (m * Z.to_nat interval + j))%nat by lia.
      rewrite (timer_after_launch env self disk interval I T _ m j eq_refl) by lia.
      do 2 f_equal. lia. }
    split; [exact F|].
    unfold launch. fold k. unfold k at 1. rewrite E. fold found.
    rewrite (cleaner_on_count _ _ _ _ _ _ _ F) by lia.
    assert (G : (1 <? interval - Z.of_nat (S j) + 1) = true) by (apply Z.ltb_lt; lia).
    now rewrite G.
Qed.

Lemma ticks_never_postponed (interval : Z) (n : nat) (timer : option string) :
  interval <= 1 ->
  timer = None \/ timer = Some (str interval) ->
  ticks interval n timer = repeat false n.
Proof.
  intro I. revert timer. induction n as [|n IH]; intros timer H; [reflexivity|].
  rewrite ticks_S. cbn [repeat].
  assert (T : tick interval timer = (Some (str interval), false)).
  { destruct H as [-> | ->]; [reflexivity|].
    destruct interval as [|p|p].
    - reflexivity.
    - rewrite tick_str by lia.
      assert (G : (1 <? Z.pos p) = false) by (apply Z.ltb_ge; lia). now rewrite G.
    - unfold tick, countdown. now rewrite str_neg_isdigit. }
  rewrite T. cbn [fst snd]. f_equal. apply IH. now right.
Qed.

(** X5: with an interval of 1 or less (zero and negative numbers
    included) no launch is ever postponed: every launch cleans. *)
Theorem small_interval_always_cleans (env : nat -> World * World * Q)
    (self : ScannerAndCleaner) (disk : Disk) (interval : Z) (n : nat) :
  interval <= 1 ->
  timer_file disk = None ->
  map postponed (fst (launches env self interval 0 n disk)) = repeat false n.
Proof.
  intros I T. rewrite launches_ticks. apply ticks_never_postponed; [exact I|now left].
Qed.



(* ================================================================= *)
(** ** More about [scan] *)

Lemma strs_of_strings (l : list string) : strs_of (map JStr l) = l.
Proof.
  induction l as [|x l IH]; simpl; [reflexivity|now rewrite IH].
Qed.

Lemma difference_strings (current previous : list string) :
  difference current (JArr (map JStr previous))
  = Ok (filter (fun x => negb (mem x previous)) current).
Proof.
  unfold difference, iterated_strs. now rewrite strings_hashable, strs_of_strings.
Qed.

Lemma dict_get_None_keys {V : Type} (k : string) (d : list (string * V)) :
  ~ In k (keys d) -> dict_get k d = None.
Proof.
  induction d as [|[k0 v0] d IH]; simpl; intro N; [reflexivity|].
  destruct (String.eqb_spec k k0) as [-> |D].
  - exfalso. apply N. now left.
  - apply IH. intro I. apply N. now right.
Qed.

(** The loop of the scan over a valid stored scan: it does not raise, and
    what it leaves under each key is read off the stored scan and the
    current content of that directory. *)
Lemma new_content_loop_exact (d : list (string * json))
    (content_set : list (string * list string)) :
  valid_snapshot d ->
  NoDup (keys content_set) ->
  forall new_content,
    (forall k, In k (keys content_set) -> dict_get k new_content = None) ->
    exists result,
      new_content_loop (JObj d) content_set new_content = Ok result /\
      forall key,
        dict_get key result =
        match dict_get key content_set with
        | Some current => reported_for d key current
        | None => dict_get key new_content
        end.
Proof.
  intros V. induction content_set as [|[k current] rest IH]; intros N nc F.
  - exists nc. split; reflexivity.
  - inversion N as [|? ? NI N']; subst.
    cbn [new_content_loop subscript bind].
    set (nc' := match reported_for d k current with
                | Some v => dict_set k v nc
                | None => nc
                end).
    assert (Step : new_content_loop (JObj d) ((k, current) :: rest) nc
                   = new_content_loop (JObj d) rest nc').
    { cbn [new_content_loop subscript bind]. unfold nc', reported_for.
      destruct (dict_get k d) as [previous|] eqn:G; [|reflexivity].
      destruct (V k previous (dict_get_In _ _ _ G)) as [l ->].
      rewrite difference_strings. cbn [bind].
      now destruct (filter (fun x => negb (mem x l)) current). }
    cbn [new_content_loop subscript bind] in Step. rewrite Step.
    destruct (IH N' nc') as [result [L G]].
    { intros k' I. unfold nc'.
      assert (D : k' <> k) by (intros ->; contradiction).
      destruct (reported_for d k current).
      - rewrite dict_get_set. destruct (String.eqb_spec k' k); [contradiction|].
        apply F. now right.
      - apply F. now right. }
    exists result. split; [exact L|].
    intro key. rewrite G. cbn [dict_get].
    destruct (String.eqb_spec key k) as [-> |D].
    + rewrite (dict_get_None_keys k rest NI). unfold nc'.
      destruct (reported_for d k current) as [v|].
      * now rewrite dict_get_set, String.eqb_refl.
      * apply F. now left.
    + destruct (dict_get key rest); [reflexivity|]. unfold nc'.
      destruct (reported_for d k current); [|reflexivity].
      rewrite dict_get_set. now destruct (String.eqb_spec key k).
Qed.

(** X6: against a valid stored scan, what is reported for a watched
    directory that is stored is exactly the list of its current entries
    that are not in the stored list, and nothing when there is none;
    entries that were stored and are gone are never reported. *)
Theorem scan_reports_exact_difference (self : ScannerAndCleaner) (disk : Disk)
    (d : list (string * json)) (key : string) (current previous : list string) :
  watchdirs_file disk = Json (JObj d) ->
  valid_snapshot d ->
  NoDup (keys (watchdirs_content_set self)) ->
  In (key, current) (watchdirs_content_set self) ->
  dict_get key d = Some (JArr (map JStr previous)) ->
  exists new_content,
    scan_changes self disk =
      (_write_watchdirs self disk,
       Ok (match new_content with [] => NoNew | _ => NewFound new_content end)) /\
    dict_get key new_content =
      match filter (fun x => negb (mem x previous)) current with
      | [] => None
      | added => Some (JArr (map JStr added))
      end.
Proof.
  intros F V N I G.
  destruct (new_content_loop_exact d (watchdirs_content_set self) V N [])
    as [result [L R]]; [reflexivity|].
  exists result. split.
  - unfold scan_changes. now rewrite F, L.
  - rewrite R, (In_dict_get _ _ _ N I). unfold reported_for.
    rewrite G, difference_strings.
    now destruct (filter (fun x => negb (mem x previous)) current).
Qed.

Lemma mem_In (x : string) (l : list string) : mem x l = true <-> In x l.
Proof.
  unfold mem. rewrite existsb_exists. split.
  - intros [y [I E]]. apply String.eqb_eq in E. now subst.
  - intro I. exists x. split; [exact I|apply String.eqb_refl].
Qed.

Lemma filter_not_mem_self (l l' : list string) :
  incl l l' -> filter (fun x => negb (mem x l')) l = [].
Proof.
  induction l as [|x l IH]; intro H; [reflexivity|]. simpl.
  assert (M : mem x l' = true) by (apply mem_In, H; now left).
  rewrite M. simpl. apply IH. intros y I. apply H. now right.
Qed.

Lemma dict_get_dump (cl : list (string * list string)) (key : string) :
  dict_get key (map (fun kv => (fst kv, JArr (map JStr (snd kv)))) cl)
  = option_map (fun l => JArr (map JStr l)) (dict_get key cl).
Proof.
  induction cl as [|[k l] cl IH]; simpl; [reflexivity|].
  now destruct (String.eqb key k).
Qed.

Lemma dump_valid (self : ScannerAndCleaner) :
  valid_snapshot (map (fun kv => (fst kv, JArr (map JStr (snd kv))))
                    (watchdirs_content_list self)).
Proof.
  intros k v I. apply in_map_iff in I. destruct I as [[k' l] [E _]].
  inversion E; subst. now exists l.
Qed.

Lemma scan_changes_disk (self : ScannerAndCleaner) (disk d1 : Disk) (report : scan_report) :
  scan_changes self disk = (d1, Ok report) -> d1 = _write_watchdirs self disk.
Proof.
  unfold scan_changes. intro H. destruct (watchdirs_file disk) as [| |j].
  - now inversion H.
  - now inversion H.
  - destruct (new_content_loop j (watchdirs_content_set self) []); now inversion H.
Qed.

(** X7: what a scan stores, the next scan reads back, whichever object
    makes the next scan: when the object of the later launch holds under
    each of its keys only entries the earlier object held under that key
    (nothing was added; the order of the entries is free, entries and
    keys may be gone), the later scan reports that nothing is new,
    whatever the first scan started from.  It rewrites the stored file
    from its own lists. *)
Theorem scan_again_nothing_new (self later : ScannerAndCleaner) (disk d1 : Disk)
    (report : scan_report) :
  well_formed self ->
  well_formed later ->
  nothing_added self later ->
  scan_changes self disk = (d1, Ok report) ->
  scan_changes later d1 = (_write_watchdirs later d1, Ok NoNew).
Proof.
  intros [E _] [_ N] A H.
  pose proof (scan_changes_disk _ _ _ _ H) as W. subst d1.
  destruct (new_content_loop_exact _ (watchdirs_content_set later) (dump_valid self) N [])
    as [result [L R]]; [reflexivity|].
  assert (Z : result = []).
  { destruct result as [|[k v] result]; [reflexivity|].
    specialize (R k). cbn [dict_get] in R. rewrite String.eqb_refl in R.
    destruct (dict_get k (watchdirs_content_set later)) as [current|] eqn:G;
      [|discriminate].
    destruct (A k current G) as [previous [P I]].
    unfold reported_for in R. rewrite dict_get_dump, E, P in R. cbn [option_map] in R.
    rewrite difference_strings, filter_not_mem_self in R by exact I.
    discriminate. }
  subst result. unfold scan_changes.
  unfold _write_watchdirs at 1, dump_watchdirs at 1.
  cbv beta iota delta [watchdirs_file]. rewrite L. reflexivity.
Qed.

(** X8: a stored file that is valid JSON but not an object (a list, a
    number, a string, null) is not taken for a corrupted file: with at
    least one watched directory the scan raises [TypeError], and the
    stored file is left as it was. *)
Theorem stored_scan_not_object_raises (self : ScannerAndCleaner) (disk : Disk) (j : json) :
  watchdirs_file disk = Json j ->
  (forall d, j <> JObj d) ->
  watchdirs_content_set self <> [] ->
  scan_changes self disk = (disk, Raise TypeError).
Proof.
  intros F J C. unfold scan_changes. rewrite F.
  destruct (watchdirs_content_set self) as [|[k current] rest]; [now elim C|].
  destruct j; try reflexivity. now elim (J d).
Qed.

(* ================================================================= *)
(** ** More about [__init__] *)

Lemma keys_dict_set_eq {V W : Type} (k : string) (v : V) (v' : W)
    (d : list (string * V)) (d' : list (string * W)) :
  keys d = keys d' -> keys (dict_set k v d) = keys (dict_set k v' d').
Proof.
  revert d'. induction d as [|[k0 v0] d IH]; intros [|[k1 v1] d'] E; simpl in *;
    try discriminate; [reflexivity|].
  inversion E; subst. destruct (String.eqb k k1); simpl.
  - now f_equal.
  - f_equal. now apply IH.
Qed.

Lemma set_of_In (l : list string) (x : string) : In x (set_of l) <-> In x l.
Proof.
  induction l as [|y l IH]; simpl; [reflexivity|].
  destruct (mem y (set_of l)) eqn:M.
  - apply mem_In in M. rewrite IH. split; [now right|].
    intros [<-|I]; [now apply IH|exact I].
  - simpl. now rewrite IH.
Qed.

Lemma set_of_NoDup (l : list string) : NoDup (set_of l).
Proof.
  induction l as [|y l IH]; simpl; [constructor|].
  destruct (mem y (set_of l)) eqn:M; [exact IH|].
  constructor; [|exact IH]. intro I. apply mem_In in I. congruence.
Qed.

Lemma init_loop_spec (w : World) (watch_dirs : list string) :
  forall cl cp cs : list (string * list string),
    cl = cs -> NoDup (keys cs) -> keys cp = keys cs ->
    forall cl' cp' cs', init_loop w watch_dirs (cl, cp, cs) = (cl', cp', cs') ->
    cl' = cs' /\ NoDup (keys cs') /\ keys cp' = keys cs' /\
    (forall key, In key (keys cs') <-> In key (keys cs) \/ In key watch_dirs) /\
    (forall key, In key watch_dirs ->
       dict_get key cp' = Some (glob w key) /\
       dict_get key cs' = Some (set_of (glob w key))).
Proof.
  induction watch_dirs as [|k rest IH]; intros cl cp cs E N K cl' cp' cs' H.
  - simpl in H. inversion H; subst. repeat split; try assumption; try tauto.
    + intros [I|[]]. exact I.
    + contradiction.
    + contradiction.
  - cbn [init_loop] in H. subst cl.
    destruct (IH _ _ _ eq_refl (dict_set_nodup k (set_of (glob w k)) cs N)
                (keys_dict_set_eq k (glob w k) (set_of (glob w k)) cp cs K)
                cl' cp' cs' H) as [E' [N' [K' [M G]]]].
    split; [exact E'|]. split; [exact N'|]. split; [exact K'|]. split.
    + intro key. rewrite M, keys_dict_set. simpl. intuition.
    + intros key I.
      destruct (in_dec string_dec key rest) as [R|R]; [now apply G|].
      destruct I as [-> |I]; [|contradiction].
      clear G IH.
      assert (P : forall (l : list string) (a : list (string * list string) * list (string * list string) * list (string * list string)),
                 ~ In key l ->
                 dict_get key (snd (fst (init_loop w l a))) = dict_get key (snd (fst a)) /\
                 dict_get key (snd (init_loop w l a)) = dict_get key (snd a)).
      { induction l as [|x l IHl]; intros [[a1 a2] a3] NI; [now split|].
        cbn [init_loop].
        destruct (IHl (dict_set x (set_of (glob w x)) a1, dict_set x (glob w x) a2,
                       dict_set x (set_of (glob w x)) a3)) as [P1 P2].
        { intro I. apply NI. now right. }
        rewrite P1, P2. cbn [fst snd]. rewrite !dict_get_set.
        destruct (String.eqb_spec key x) as [-> |D]; [|now split].
        exfalso. apply NI. now left. }
      destruct (P rest (dict_set key (set_of (glob w key)) cs,
                        dict_set key (glob w key) cp,
                        dict_set key (set_of (glob w key)) cs) R) as [P1 P2].
      rewrite H in P1, P2. cbn [fst snd] in P1, P2.
      rewrite P1, P2, !dict_get_set, String.eqb_refl. now split.
Qed.

Lemma init_well_formed (w : World) (watch_dirs : list string) (ntop : Z)
    (dirs : list One_path_item) :
  well_formed (init w watch_dirs ntop dirs).
Proof.
  unfold init, well_formed.
  destruct (init_loop w (map (expanduser w) watch_dirs) ([], [], [])) as [[cl cp] cs] eqn:H.
  destruct (init_loop_spec w (map (expanduser w) watch_dirs) [] [] [] eq_refl (NoDup_nil _)
              eq_refl cl cp cs H)
    as [E [N _]].
  now split.
Qed.

Lemma init_keys (w : World) (watch_dirs : list string) (ntop : Z)
    (dirs : list One_path_item) (key : string) :
  In key (keys (watchdirs_content_set (init w watch_dirs ntop dirs)))
  <-> In key (map (expanduser w) watch_dirs).
Proof.
  unfold init.
  destruct (init_loop w (map (expanduser w) watch_dirs) ([], [], [])) as [[cl cp] cs] eqn:H.
  destruct (init_loop_spec w (map (expanduser w) watch_dirs) [] [] [] eq_refl (NoDup_nil _)
              eq_refl cl cp cs H)
    as [_ [_ [_ [M _]]]].
  cbn [watchdirs_content_set]. rewrite M. simpl. tauto.
Qed.

(** X9: the object [__init__] builds: its keys are the strings of the
    expanded paths of the watched directories ([str(Path(d).expanduser())],
    not the strings as given), each once, so that two directories with one
    expansion share a key; under a key the listing of that path, the same
    entries as a set in which each appears once, and for saving the very
    list that is compared. *)
Theorem init_invariants (w : World) (watch_dirs : list string) (ntop : Z)
    (dirs : list One_path_item) :
  well_formed (init w watch_dirs ntop dirs) /\
  (forall key, In key (keys (watchdirs_content_set (init w watch_dirs ntop dirs)))
               <-> In key (map (expanduser w) watch_dirs)) /\
  (forall key, In key (map (expanduser w) watch_dirs) ->
     dict_get key (watchdirs_content_Path (init w watch_dirs ntop dirs))
       = Some (glob w key) /\
     exists s, dict_get key (watchdirs_content_set (init w watch_dirs ntop dirs)) = Some s /\
               NoDup s /\ forall x, In x s <-> In x (glob w key)).
Proof.
  unfold init, well_formed.
  destruct (init_loop w (map (expanduser w) watch_dirs) ([], [], [])) as [[cl cp] cs] eqn:H.
  destruct (init_loop_spec w (map (expanduser w) watch_dirs) [] [] [] eq_refl (NoDup_nil _)
              eq_refl cl cp cs H)
    as [E [N [K [M G]]]].
  cbn [watchdirs_content_list watchdirs_content_set watchdirs_content_Path].
  split; [now split|]. split.
  - intro key. rewrite M. simpl. tauto.
  - intros key I. destruct (G key I) as [G1 G2]. split; [exact G1|].
    exists (set_of (glob w key)). split; [exact G2|]. split.
    + apply set_of_NoDup.
    + intro x. apply set_of_In.
Qed.

(** Two ways of writing one directory give one key. *)
Example init_shared_key :
  watchdirs_content_set (init sloppy_names ["/a"; "/a/"; "~/b/"] 20 [])
  = [("/a", ["/a/small"]); ("/b", ["/b/big"])].
Proof. reflexivity. Qed.

(* ================================================================= *)
(** ** More about [cleaner] *)

Lemma first_filter_children (w : World) (item : One_path_item) (p : string) :
  In p (first_filter w item) ->
  In p (glob w (path item)) /\
  (type_to_del item = "f" -> is_file w p = true).
Proof.
  unfold first_filter. destruct (String.eqb_spec (type_to_del item) "f") as [E|D].
  - intro I. apply filter_In in I. tauto.
  - intro I. split; [exact I|]. intro E. contradiction.
Qed.

Lemma final_files_candidates (w : World) (now : Q) (item : One_path_item)
    (final : list string) :
  final_files_to_remove w now item = Ok final ->
  forall p, In p final -> In p (first_filter w item).
Proof.
  unfold final_files_to_remove. intros H p I.
  destruct (second_filter w now item (first_filter w item)) as [c|e] eqn:S;
    simpl in H; [|discriminate].
  pose proof (second_filter_shape _ _ _ _ _ S) as Sh.
  destruct c as [files|rows].
  - destruct Sh as [_ [_ ->]]. simpl in H.
    destruct (first_filter w item) as [|f l]; [inversion H; now subst|].
    destruct (ignore item); [inversion H; now subst|discriminate].
  - simpl in H. inversion H; subst; clear H.
    apply filter_In in I. destruct I as [I _].
    apply (proj1 (keys_dict rows p)) in I. apply in_map_iff in I.
    destruct I as [r [<- I]].
    apply (second_filter_rows _ _ _ _ _ S r I).
Qed.

Lemma clean_loop_erased (w : World) (now : Q) (items : list One_path_item) :
  forall rm p, In p (fst (clean_loop w now items rm)) ->
    In p rm \/
    exists item final, In item items /\ final_files_to_remove w now item = Ok final /\
                       In p final.
Proof.
  induction items as [|item rest IH]; intros rm p I; simpl in I.
  - now left.
  - destruct (final_files_to_remove w now item) as [final|e] eqn:F.
    + apply IH in I. destruct I as [I|[it [fin [I1 [I2 I3]]]]].
      * unfold _erase_subs in I. apply in_app_or in I. destruct I as [I|I]; [now left|].
        right. exists item, final. repeat split; [now left|exact F|exact I].
      * right. exists it, fin. repeat split; [now right|exact I2|exact I3].
    + now left.
Qed.

(** X10: whatever a call of [cleaner] starts to remove is a direct entry
    of one of the directories to clean, as listed at that call, that
    matches none of the ignore substrings of that directory; for a
    directory cleaned of files only it is a plain file. *)
Theorem cleaner_removes_only_children (w w' : World) (now : Q)
    (self : ScannerAndCleaner) (disk : Disk) (interval : Z) (p : string) :
  In p (erased (cleaner w w' now self disk interval)) ->
  exists item,
    In item (dirstoclean self) /\
    In p (glob w (path item)) /\
    ignored item p = false /\
    (type_to_del item = "f" -> is_file w p = true).
Proof.
  intro I.
  assert (L : In p (fst (clean_loop w now (dirstoclean self) []))).
  { unfold cleaner in I. destruct (countdown (timer_file disk)) as [[n|]|e];
      [contradiction| |contradiction].
    unfold cleaning in I.
    destruct (_add_stat_properties w (map path (dirstoclean self)) "size" false true);
      [|contradiction].
    destruct (clean_loop w now (dirstoclean self) []) as [rm [u|e]]; [|exact I].
    destruct (_count_erased_size w' self a) as [[t ps]|e]; exact I. }
  apply clean_loop_erased in L. destruct L as [[]|[item [final [I1 [I2 I3]]]]].
  exists item. split; [exact I1|].
  destruct (first_filter_children w item p (final_files_candidates _ _ _ _ I2 p I3))
    as [G F].
  split; [exact G|]. split; [|exact F].
  destruct (ignored item p) eqn:Ig; [|reflexivity].
  elim (ignored_never_removed _ _ _ _ _ I2 Ig I3).
Qed.

(** X11: a full cleaning (no [num_to_keep], no [remove_older]) of a
    directory that has candidates raises [TypeError] as soon as the
    settings hold an ignore substring: the test [substring in file] is
    then made on [Path] objects. *)
Theorem full_cleaning_with_ignore_raises (w : World) (now : Q) (item : One_path_item) :
  num_to_keep item <= 0 ->
  remove_older item = None ->
  ignore item <> [] ->
  first_filter w item <> [] ->
  final_files_to_remove w now item = Raise TypeError.
Proof.
  intros K D Ig F. unfold final_files_to_remove, second_filter.
  apply Z.ltb_ge in K. rewrite K, D. simpl.
  destruct (first_filter w item); [now elim F|].
  destruct (ignore item); [now elim Ig|reflexivity].
Qed.

Lemma prefix_occurs (sub s : string) :
  String.prefix sub s = true <-> exists b, s = (sub ++ b)%string.
Proof.
  revert s. induction sub as [|c sub IH]; intros [|c' s].
  - split; [intros _; now exists EmptyString|reflexivity].
  - split; [intros _; now exists (String c' s)|reflexivity].
  - simpl. split; [discriminate|]. intros [b E]. discriminate.
  - simpl. destruct (Ascii.ascii_dec c c') as [-> |D].
    + rewrite IH. split; intros [b E]; exists b; [now rewrite E|]. now inversion E.
    + split; [discriminate|]. intros [b E]. inversion E. congruence.
Qed.

Lemma contains_occurs (sub s : string) : contains sub s = true <-> occurs sub s.
Proof.
  unfold occurs. split.
  - induction s as [|c s IH]; cbn [contains]; intro H; apply orb_prop in H.
    + destruct H as [H|H]; [|discriminate].
      apply prefix_occurs in H. destruct H as [b E]. now exists EmptyString, b.
    + destruct H as [H|H].
      * apply prefix_occurs in H. destruct H as [b E]. now exists EmptyString, b.
      * destruct (IH H) as [a [b E]]. exists (String c a), b. simpl. now rewrite E.
  - intros [a [b E]]. revert s E. induction a as [|c a IH]; intros s E.
    + simpl in E. destruct s; cbn [contains]; apply orb_true_intro; left;
        apply prefix_occurs; now exists b.
    + simpl in E. subst s. cbn [contains]. apply orb_true_intro. right.
      now apply IH.
Qed.

Lemma ignored_occurs (item : One_path_item) (p : string) :
  ignored item p = false <-> forall sub, In sub (ignore item) -> ~ occurs sub p.
Proof.
  unfold ignored. split.
  - intros H sub I O. apply contains_occurs in O.
    assert (T : existsb (fun substring => contains substring p) (ignore item) = true).
    { apply existsb_exists. now exists sub. }
    congruence.
  - intro H. destruct (existsb _ (ignore item)) eqn:E; [|reflexivity].
    apply existsb_exists in E. destruct E as [sub [I C]].
    apply contains_occurs in C. elim (H sub I C).
Qed.

(** X12: under [num_to_keep] or [remove_older], the files removed are the
    entries the second filter selected in which no ignore substring occurs
    anywhere: the test is on the whole path string, not on the name of the
    entry. *)
Theorem ignore_is_substring_test (w : World) (now : Q) (item : One_path_item)
    (rows : list row) :
  second_filter w now item (first_filter w item) = Ok (Rows rows) ->
  exists final,
    final_files_to_remove w now item = Ok final /\
    forall p, In p final <->
      In p (map fst rows) /\ forall sub, In sub (ignore item) -> ~ occurs sub p.
Proof.
  intro S. unfold final_files_to_remove. rewrite S. cbn [bind third_filter].
  eexists. split; [reflexivity|].
  intro p. rewrite filter_In, negb_true_iff, ignored_occurs.
  now rewrite (keys_dict rows p).
Qed.

(** X14: a call of [scan] never touches the timer file.  When it
    returns, the stored scan is the current listing, one section with at
    most [ntopfiles] sizes is appended to the report and one piece to the
    notification; when it raises, the report is as it was. *)
Theorem scan_effects (w : World) (self : ScannerAndCleaner) (disk d : Disk)
    (res : result ScannerAndCleaner) :
  scan w self disk = (d, res) ->
  timer_file d = timer_file disk /\
  match res with
  | Ok self' =>
      watchdirs_file d = Json (dump_watchdirs self) /\
      exists report_scan top,
        report_file d = report_file disk ++ [ScanSection report_scan (ntopfiles self) top] /\
        notify_report self' = notify_report self ++ [ScanNotice report_scan] /\
        (Z.of_nat (List.length top) <= Z.max 0 (ntopfiles self))
  | Raise _ => report_file d = report_file disk
  end.
Proof.
  unfold scan. intro H.
  assert (C : forall d1 r, scan_changes self disk = (d1, r) ->
            timer_file d1 = timer_file disk /\ report_file d1 = report_file disk /\
            (forall x, r = Ok x -> watchdirs_file d1 = Json (dump_watchdirs self))).
  { unfold scan_changes. intros d1 r E.
    destruct (watchdirs_file disk) as [| |j].
    - inversion E; subst. repeat split. 
    - inversion E; subst. repeat split.
    - destruct (new_content_loop j (watchdirs_content_set self) []);
        inversion E; subst; repeat split. discriminate. }
  destruct (scan_changes self disk) as [d1 [report_scan|e]] eqn:E.
  - destruct (C d1 (Ok report_scan) eq_refl) as [T [R W]].
    destruct (top_size_things w self) as [top|e] eqn:Top; inversion H; subst; clear H.
    + split; [exact T|]. split; [apply (W report_scan eq_refl)|].
      exists report_scan, top. cbn [append_report report_file set_notify notify_report].
      rewrite R. repeat split.
      unfold top_size_things in Top.
      destruct (all_content_loop w (map snd (watchdirs_content_Path self)) []);
        simpl in Top; [|discriminate].
      inversion Top; subst. rewrite top_rows_length. lia.
    + split; [exact T|exact R].
  - destruct (C d1 (Raise e) eq_refl) as [T [R _]].
    inversion H; subst. split; [exact T|exact R].
Qed.

Lemma scan_notify (w : World) (self : ScannerAndCleaner) (disk d : Disk)
    (self' : ScannerAndCleaner) :
  scan w self disk = (d, Ok self') ->
  exists report_scan, notify_report self' = notify_report self ++ [ScanNotice report_scan].
Proof.
  unfold scan. intro H.
  destruct (scan_changes self disk) as [d1 [report_scan|e]]; [|discriminate].
  destruct (top_size_things w self); [|discriminate].
  inversion H; subst. now exists report_scan.
Qed.

Lemma cleaner_notify (w w' : World) (now : Q) (self : ScannerAndCleaner)
    (disk : Disk) (interval : Z) :
  match how (cleaner w w' now self disk interval) with
  | Cleaned =>
      exists total,
        notify_report (self_after (cleaner w w' now self disk interval))
          = notify_report self ++ [CleanNotice total]
  | Postponed =>
      self_after (cleaner w w' now self disk interval) = self /\
      erased (cleaner w w' now self disk interval) = []
  | Crashed _ => True
  end.
Proof.
  unfold cleaner. destruct (countdown (timer_file disk)) as [[n|]|e]; simpl;
    [now split| |exact I].
  unfold cleaning.
  destruct (_add_stat_properties w (map path (dirstoclean self)) "size" false true);
    [|exact I].
  destruct (clean_loop w now (dirstoclean self) []) as [rm [u|e]]; [|exact I].
  destruct (_count_erased_size w' self a) as [[t ps]|e]; [|exact I].
  simpl. now exists t.
Qed.

(* ================================================================= *)
(** ** More about the reports *)

(** X15: with a single watched directory the top of the report is right:
    it holds the biggest measured entries of that directory, biggest
    first, as many as asked for or all of them when there are fewer, and
    no entry left out is bigger than one that is listed. *)
Theorem single_directory_top_is_biggest (w : World) (self : ScannerAndCleaner)
    (key : string) (paths : list string) (top : list row) :
  watchdirs_content_Path self = [(key, paths)] ->
  top_size_things w self = Ok top ->
  exists rest : list row,
    _add_stat_properties w paths "size" true true = Ok (top ++ rest) /\
    StronglySorted biggest_first (top ++ rest) /\
    List.length top = Nat.min (Z.to_nat (ntopfiles self)) (List.length (top ++ rest)) /\
    forall a b, In a top -> In b rest -> (snd b <= snd a)%Q.
Proof.
  intros P H. unfold top_size_things in H. rewrite P in H.
  cbn [map snd all_content_loop] in H.
  destruct (_add_stat_properties w paths "size" true true) as [rows|e] eqn:A;
    simpl in H; [|discriminate].
  inversion H; subst; clear H. rewrite top_rows_firstn.
  exists (skipn (Z.to_nat (ntopfiles self)) rows).
  assert (S : StronglySorted biggest_first rows).
  { unfold _add_stat_properties in A.
    destruct (stat_loop w "size" paths []); simpl in A; [|discriminate].
    inversion A; subst. apply sort_biggest_first. }
  assert (Cut : @app row (firstn (Z.to_nat (ntopfiles self)) rows)
                  (skipn (Z.to_nat (ntopfiles self)) rows) = rows)
    by apply firstn_skipn.
  rewrite Cut. repeat split.
  - exact S.
  - apply length_firstn.
  - apply sorted_app_inv. now rewrite Cut.
Qed.

Lemma In_dict_set {V : Type} (k : string) (v : V) (d : list (string * V))
    (x : string * V) :
  In x (dict_set k v d) -> x = (k, v) \/ In x d.
Proof.
  induction d as [|[k0 v0] d IH]; simpl.
  - intros [<-|[]]. now left.
  - destruct (String.eqb k k0); simpl.
    + intros [<-|I]; [now left|right; now right].
    + intros [<-|I]; [right; now left|].
      destruct (IH I) as [E|I']; [now left|right; now right].
Qed.

Lemma In_dict {V : Type} (l : list (string * V)) (x : string * V) :
  In x (dict l) -> In x l.
Proof.
  unfold dict.
  assert (G : forall acc, In x (fold_left (fun d kv => dict_set (fst kv) (snd kv) d) l acc)
                          -> In x acc \/ In x l).
  { induction l as [|[k v] l IH]; simpl; intros acc I; [now left|].
    apply IH in I. destruct I as [I|I]; [|right; now right].
    apply In_dict_set in I. destruct I as [-> |I]; [right; now left|now left]. }
  intro I. destruct (G [] I) as [[]|I']. exact I'.
Qed.

Lemma dict_get_keys {V : Type} (k : string) (d : list (string * V)) :
  In k (keys d) -> exists v, dict_get k d = Some v.
Proof.
  induction d as [|[k0 v0] d IH]; simpl; [contradiction|].
  intro I. destruct (String.eqb_spec k k0) as [-> |D]; [eauto|].
  apply IH. destruct I as [E|I]; [now elim D|exact I].
Qed.

Lemma dict_get_not_keys {V : Type} (k : string) (d : list (string * V)) :
  dict_get k d = None -> ~ In k (keys d).
Proof.
  intros H I. destruct (dict_get_keys k d I) as [v E]. congruence.
Qed.

Lemma positions_keys (new_sizes : list (string * Q)) (saved : list row) :
  map fst (map (position_of new_sizes) saved) = map fst saved.
Proof.
  rewrite map_map. apply map_ext. reflexivity.
Qed.

(** X16: [_count_erased_size], when the probe returns: one position per
    saved size, under the same path and in the same order; the total is
    the sum of the differences; a hyphen stands exactly for a path that
    has no size now, and a difference is the size now minus the saved
    one. *)
Theorem count_erased_size_positions (w : World) (self : ScannerAndCleaner)
    (saved_sizes : list row) (total : Q) (positions : list (string * position)) :
  _count_erased_size w self saved_sizes = Ok (total, positions) ->
  map fst positions = map fst saved_sizes /\
  (total == diff_sum positions)%Q /\
  forall k v, In (k, v) saved_sizes ->
    (In (k, Dash) positions <->
       ~ (In k (map path (dirstoclean self)) /\ has_value w "size" k = true)) /\
    (forall now_size, stat_of w "size" k = Ok (Some (k, now_size)) ->
       In k (map path (dirstoclean self)) ->
       In (k, Diff (now_size - v)%Q) positions).
Proof.
  unfold _count_erased_size. intro H.
  destruct (_add_stat_properties w (map path (dirstoclean self)) "size" false true)
    as [rows|e] eqn:A; simpl in H; [|discriminate].
  destruct (erased_loop_spec (dict rows) saved_sizes 0%Q []) as [P T].
  destruct (erased_loop (dict rows) saved_sizes 0 []) as [t ps].
  inversion H; subst; clear H. cbn [fst snd app] in P, T. subst positions.
  pose proof (stat_loop_filter _ _ _ _ (unsorted_probe_loop _ _ _ _ _ A)) as F.
  pose proof (stat_loop_rows _ _ _ _ (unsorted_probe_loop _ _ _ _ _ A)) as R.
  assert (Keys : forall k, In k (keys (dict rows)) <->
                 In k (map path (dirstoclean self)) /\ has_value w "size" k = true).
  { intro k. rewrite keys_dict, F, filter_In. reflexivity. }
  split; [apply positions_keys|]. split; [rewrite T; lra|].
  intros k v I. split.
  - rewrite <- Keys. split.
    + intros D K. apply in_map_iff in D. destruct D as [[k' v'] [E _]].
      unfold position_of in E. cbn [fst snd] in E.
      destruct (dict_get_keys k' (dict rows)) as [x G].
      { inversion E; subst. exact K. }
      rewrite G in E. inversion E.
    + intro N. apply in_map_iff. exists (k, v). split; [|exact I].
      unfold position_of. cbn [fst snd].
      now rewrite (dict_get_None_keys k (dict rows) N).
  - intros now_size S K.
    assert (HV : has_value w "size" k = true) by (unfold has_value; now rewrite S).
    destruct (dict_get_keys k (dict rows) (proj2 (Keys k) (conj K HV))) as [x G].
    pose proof (In_dict _ _ (dict_get_In _ _ _ G)) as Ix.
    destruct (R (k, x) Ix) as [_ Sx]. cbn [fst] in Sx. rewrite S in Sx.
    inversion Sx; subst.
    apply in_map_iff. exists (k, v). split; [|exact I].
    unfold position_of. cbn [fst snd]. now rewrite G.
Qed.

Lemma diff_sum_zero (positions : list (string * position)) :
  (forall k p, In (k, p) positions -> exists d, p = Diff d /\ (d == 0)%Q) ->
  (diff_sum positions == 0)%Q.
Proof.
  induction positions as [|[k p] l IH]; intro H; simpl; [reflexivity|].
  destruct (H k p (or_introl eq_refl)) as [d [-> Z]].
  rewrite IH; [lra|]. intros k' p' I. apply (H k' p'). now right.
Qed.

(** X17: when the sizes taken again are the sizes saved (nothing was
    removed yet, nothing arrived), every position is a difference of zero,
    no hyphen, and the total is zero. *)
Theorem unchanged_sizes_report_zero (w : World) (self : ScannerAndCleaner)
    (saved_sizes : list row) :
  _add_stat_properties w (map path (dirstoclean self)) "size" false true = Ok saved_sizes ->
  exists total positions,
    _count_erased_size w self saved_sizes = Ok (total, positions) /\
    (total == 0)%Q /\
    forall k p, In (k, p) positions -> exists d, p = Diff d /\ (d == 0)%Q.
Proof.
  intro A.
  pose proof (stat_loop_rows _ _ _ _ (unsorted_probe_loop _ _ _ _ _ A)) as R.
  unfold _count_erased_size. rewrite A. cbn [bind].
  destruct (erased_loop_spec (dict saved_sizes) saved_sizes 0%Q []) as [P T].
  destruct (erased_loop (dict saved_sizes) saved_sizes 0 []) as [total positions].
  cbn [fst snd app] in P, T. subst positions.
  exists total, (map (position_of (dict saved_sizes)) saved_sizes).
  split; [reflexivity|].
  assert (Z : forall k p, In (k, p) (map (position_of (dict saved_sizes)) saved_sizes) ->
                          exists d, p = Diff d /\ (d == 0)%Q).
  { intros k p I. apply in_map_iff in I. destruct I as [[k2 v] [E Iv]].
    unfold position_of in E. cbn [fst snd] in E. inversion E; subst k2. clear E.
    destruct (R (k, v) Iv) as [_ S]. cbn [fst] in S.
    assert (HV : In k (keys (dict saved_sizes))).
    { apply keys_dict. apply (in_map fst) in Iv. exact Iv. }
    destruct (dict_get_keys k _ HV) as [x G]. rewrite G.
    destruct (R (k, x) (In_dict _ _ (dict_get_In _ _ _ G))) as [_ Sx].
    cbn [fst] in Sx. rewrite S in Sx. inversion Sx; subst x.
    exists (v - v)%Q. split; [reflexivity|lra]. }
  split; [|exact Z]. rewrite T, (diff_sum_zero _ Z). lra.
Qed.

(* ================================================================= *)
(** ** The filters of [cleaner] on plain files *)

(** The age of a plain file is its modification time. *)
Lemma stat_of_file (w : World) (p : string) :
  is_file w p = true ->
  stat_of w "age" p =
  Ok (match stat w p with Some (_, st_mtime) => Some (p, st_mtime) | None => None end).
Proof.
  intro F. unfold stat_of. rewrite F. now destruct (stat w p) as [[sz mt]|].
Qed.

Lemma age_rows_of_files (w : World) (files : list string) :
  (forall p, In p files -> is_file w p = true) ->
  exists rows,
    _add_stat_properties w files "age" true true = Ok rows /\
    forall p v, In (p, v) rows <->
      In p files /\ exists st_size, stat w p = Some (st_size, v).
Proof.
  intro F.
  destruct (stat_loop_total w "age" files) as [raw L].
  { intros p I. rewrite (stat_of_file w p (F p I)). eauto. }
  exists (sort (@snd string Q) Qltb true raw). split.
  - unfold _add_stat_properties. now rewrite L.
  - intros p v.
    assert (P : In (p, v) (sort (@snd string Q) Qltb true raw) <-> In (p, v) raw).
    { split; apply Permutation_in;
        [|apply Permutation_sym]; apply (sort_perm (@snd string Q) Qltb true). }
    rewrite P. split.
    + intro I. destruct (stat_loop_rows _ _ _ _ L (p, v) I) as [A B]. cbn [fst] in A, B.
      split; [exact A|]. rewrite (stat_of_file w p (F p A)) in B.
      destruct (stat w p) as [[sz mt]|]; inversion B; subst. now exists sz.
    + intros [I [sz S]].
      assert (H : In p (map fst raw)).
      { rewrite (stat_loop_filter _ _ _ _ L). apply filter_In. split; [exact I|].
        unfold has_value. now rewrite (stat_of_file w p (F p I)), S. }
      apply in_map_iff in H. destruct H as [[p' v'] [E H]]. cbn [fst] in E. subst p'.
      destruct (stat_loop_rows _ _ _ _ L (p, v') H) as [_ B]. cbn [fst] in B.
      rewrite (stat_of_file w p (F p I)), S in B. inversion B; subst. exact H.
Qed.

(** X21: [remove_older] where the candidates are plain files (always so
    with [type_to_del = f]), for a limit of [days >= 0] that does not
    reach before the epoch and a clock below 2^53 seconds (there the
    subtraction of floats is exact): the files removed are exactly the
    candidates that still exist, whose modification time is strictly
    before [now - days * 86400] and in whose path no ignore substring
    occurs.  A file modified exactly at the cutoff stays. *)
Theorem remove_older_on_files (w : World) (now : Q) (item : One_path_item) (days : Z) :
  num_to_keep item <= 0 ->
  remove_older item = Some days ->
  0 <= days ->
  (inject_Z (days * 86400) <= now)%Q ->
  (now < inject_Z (2 ^ 53))%Q ->
  (forall p, In p (first_filter w item) -> is_file w p = true) ->
  exists final,
    final_files_to_remove w now item = Ok final /\
    forall p, In p final <->
      In p (first_filter w item) /\ ignored item p = false /\
      exists st_size st_mtime,
        stat w p = Some (st_size, st_mtime) /\
        (st_mtime < now - inject_Z (days * 86400))%Q.
Proof.
  intros K D _ _ _ F.
  destruct (age_rows_of_files w (first_filter w item) F) as [rows [P R]].
  destruct (second_filter_walk w now item _ days rows K D P)
    as [exempt [sel [_ [Cut [S [Ex Se]]]]]].
  exists (filter (fun file => negb (ignored item file)) (keys (dict sel))). split.
  - unfold final_files_to_remove. now rewrite S.
  - intro p. rewrite filter_In, negb_true_iff, (keys_dict sel p). split.
    + intros [I G]. apply in_map_iff in I. destruct I as [[p' v] [E I]].
      cbn [fst] in E. subst p'.
      assert (Ir : In (p, v) rows) by (rewrite Cut; apply in_or_app; now right).
      apply R in Ir. destruct Ir as [If [sz St]].
      split; [exact If|]. split; [exact G|]. exists sz, v. split; [exact St|].
      apply (Se (p, v) I).
    + intros [If [G [sz [mt [St Lt]]]]]. split; [|exact G].
      assert (Ir : In (p, mt) rows) by (apply R; split; [exact If|now exists sz]).
      rewrite Cut in Ir. apply in_app_or in Ir. destruct Ir as [Ie|Is].
      * pose proof (Ex (p, mt) Ie) as Ge. cbn [snd] in Ge. lra.
      * apply (in_map fst) in Is. exact Is.
Qed.

(** X22: [num_to_keep] where the candidates are plain files that exist,
    with pairwise distinct modification times, and no ignore substring is
    set: nothing is removed when there are at most [num_to_keep]
    candidates; otherwise the files removed are candidates, each once,
    the count minus [num_to_keep] of them, and each was modified before
    every candidate that stays: the [num_to_keep] most recently modified
    files are kept. *)
Theorem keep_count_on_files (w : World) (now : Q) (item : One_path_item)
    (mtime : string -> Q) :
  0 < num_to_keep item ->
  ignore item = [] ->
  NoDup (first_filter w item) ->
  (forall p, In p (first_filter w item) ->
     is_file w p = true /\ exists st_size, stat w p = Some (st_size, mtime p)) ->
  (forall p q, In p (first_filter w item) -> In q (first_filter w item) -> p <> q ->
     ~ (mtime p == mtime q)%Q) ->
  exists final,
    final_files_to_remove w now item = Ok final /\
    NoDup final /\
    incl final (first_filter w item) /\
    (Z.of_nat (List.length (first_filter w item)) <= num_to_keep item -> final = []) /\
    (num_to_keep item < Z.of_nat (List.length (first_filter w item)) ->
       Z.of_nat (List.length final)
       = Z.of_nat (List.length (first_filter w item)) - num_to_keep item) /\
    (forall p q, In p final -> In q (first_filter w item) -> ~ In q final ->
       (mtime p < mtime q)%Q).
Proof.
  intros K Ig N F D.
  assert (V : forall p, In p (first_filter w item) ->
                stat_of w "age" p = Ok (Some (p, mtime p))).
  { intros p I. destruct (F p I) as [Fi [sz St]]. now rewrite (stat_of_file w p Fi), St. }
  destruct (keep_count_selects_oldest w now item (first_filter w item) K N)
    as [kept [sel [S [Pm [Rw [Ord [Small [Big Third]]]]]]]].
  { intros p I. exists (mtime p). now apply V. }
  { intros p q v u Ip Iq Ne Sp Sq. rewrite (V p Ip) in Sp. rewrite (V q Iq) in Sq.
    inversion Sp; inversion Sq; subst. now apply D. }
  assert (Val : forall r, In r (kept ++ sel) -> snd r = mtime (fst r)).
  { intros r I. pose proof (Rw r I) as E.
    assert (If : In (fst r) (first_filter w item)).
    { eapply Permutation_in; [exact Pm|]. now apply in_map. }
    rewrite (V _ If) in E. inversion E as [E']. now rewrite <- E' at 1. }
  assert (ND : NoDup (map fst kept ++ map fst sel)).
  { rewrite <- map_app. eapply Permutation_NoDup; [apply Permutation_sym, Pm|exact N]. }
  exists (map fst sel). split.
  - unfold final_files_to_remove. rewrite S. cbn [bind]. now apply Third.
  - split; [now apply NoDup_app_remove_l in ND|]. split.
    + intros p I. eapply Permutation_in; [exact Pm|].
      rewrite map_app. apply in_or_app. now right.
    + split; [intro Sm; now rewrite (Small Sm)|]. split.
      * intro B. destruct (Big B) as [_ L]. now rewrite length_map.
      * intros p q Ip Iq Nq.
        apply in_map_iff in Ip. destruct Ip as [b [Eb Ib]].
        assert (Iq' : In q (map fst (kept ++ sel))).
        { eapply Permutation_in; [apply Permutation_sym, Pm|exact Iq]. }
        rewrite map_app in Iq'. apply in_app_or in Iq'.
        destruct Iq' as [Ik|Is]; [|contradiction].
        apply in_map_iff in Ik. destruct Ik as [a [Ea Ia]].
        pose proof (Ord a b Ia Ib) as Lt.
        rewrite (Val a), (Val b) in Lt by (apply in_or_app; tauto).
        now rewrite Ea, Eb in Lt.
Qed.

(* ================================================================= *)
(** ** The whole program *)

(** X18: a launch whose scan raises goes no further: the timer file is
    not counted down, nothing is removed, no notification is sent.  With
    a stored scan that is valid JSON but not an object the launch leaves
    the disk exactly as it found it, so every later launch ends the same
    way. *)
Theorem failed_scan_blocks_cleaning (w w' : World) (now : Q) (watch_dirs : list string)
    (ntop : Z) (dirs : list One_path_item) (interval : Z) (disk : Disk) (j : json) :
  watchdirs_file disk = Json j ->
  (forall d, j <> JObj d) ->
  watch_dirs <> [] ->
  main w w' now watch_dirs ntop dirs interval disk = (disk, [], Raise TypeError).
Proof.
  intros F J W. unfold main, scan, scan_changes. rewrite F.
  destruct (watchdirs_content_set (init w watch_dirs ntop dirs)) as [|[k current] rest] eqn:E.
  - exfalso. destruct watch_dirs as [|k rest]; [now elim W|].
    pose proof (proj2 (init_keys w (k :: rest) ntop dirs (expanduser w k))
                  (or_introl eq_refl)) as I.
    rewrite E in I. contradiction.
  - destruct j; try reflexivity. now elim (J d).
Qed.

(** X19: a launch that gets through the scan notifies the result of the
    scan first; the total of the cleaning follows exactly when the
    cleaning ran to its end, and a postponed launch notifies the scan
    alone and removes nothing. *)
Theorem main_notification (w w' : World) (now : Q) (watch_dirs : list string)
    (ntop : Z) (dirs : list One_path_item) (interval : Z) (disk disk1 : Disk)
    (sc1 : ScannerAndCleaner) :
  scan w (init w watch_dirs ntop dirs) disk = (disk1, Ok sc1) ->
  exists report_scan,
    notify_report sc1 = [ScanNotice report_scan] /\
    match how (cleaner w w' now sc1 disk1 interval) with
    | Cleaned =>
        exists total,
          snd (main w w' now watch_dirs ntop dirs interval disk)
            = Ok [ScanNotice report_scan; CleanNotice total]
    | Postponed =>
        main w w' now watch_dirs ntop dirs interval disk
          = (disk_after (cleaner w w' now sc1 disk1 interval), [],
             Ok [ScanNotice report_scan])
    | Crashed e => snd (main w w' now watch_dirs ntop dirs interval disk) = Raise e
    end.
Proof.
  intro S. destruct (scan_notify _ _ _ _ _ S) as [report_scan N].
  assert (N0 : notify_report (init w watch_dirs ntop dirs) = []).
  { unfold init.
    now destruct (init_loop w (map (expanduser w) watch_dirs) ([], [], [])) as [[cl cp] cs]. }
  rewrite N0 in N. simpl in N.
  exists report_scan. split; [exact N|].
  unfold main. rewrite S.
  pose proof (cleaner_notify w w' now sc1 disk1 interval) as E.
  destruct (how (cleaner w w' now sc1 disk1 interval)) eqn:H.
  - destruct E as [E1 E2]. unfold report. now rewrite E2, E1, N.
  - destruct E as [total E2]. exists total. cbn [snd]. unfold report.
    now rewrite E2, N.
  - reflexivity.
Qed.

(* ================================================================= *)
(** ** These statements at concrete machines *)

(** A vanished entry between two files: two rows, in the order given. *)
Lemma probe_keeps_input_order_witness :
  map fst [("/g/A", 1%Q); ("/g/B", 1%Q)]
    = filter (has_value two_games "size") ["/g/A"; "/g/gone"; "/g/B"] /\
  (forall r, In r [("/g/A", 1%Q); ("/g/B", 1%Q)] ->
     stat_of two_games "size" (fst r) = Ok (Some r)) /\
  (List.length [("/g/A", 1%Q); ("/g/B", 1%Q)] <= List.length ["/g/A"; "/g/gone"; "/g/B"])%nat.
Proof.
  apply (probe_keeps_input_order two_games ["/g/A"; "/g/gone"; "/g/B"] "size" true).
  reflexivity.
Defined.

(** The directory with one file comes third: the probe raises there. *)
Lemma probe_raises_at_first_witness :
  _add_stat_properties mixed_entries ["/t/gone"; "/t/a"; "/t/d"; "/t/a"] "age" true true
  = Raise ValueError.
Proof.
  apply (proj2 (probe_raises_at_first mixed_entries ["/t/gone"; "/t/a"; "/t/d"; "/t/a"]
                  "age" true true ValueError)).
  exists ["/t/gone"; "/t/a"], "/t/d", ["/t/a"]. split; [reflexivity|].
  split; [reflexivity|].
  intros q [<-|[<-|[]]]; eexists; reflexivity.
Defined.

(** Two files of 5 bytes: the one given first stays first. *)
Lemma probe_sort_stable_witness :
  exists rows,
    _add_stat_properties equal_sizes ["/e/1"; "/e/2"; "/e/3"; "/e/4"] "size" true true
      = Ok rows /\
    Permutation rows [("/e/1", 5%Q); ("/e/2", 9%Q); ("/e/3", 5%Q); ("/e/4", 7%Q)] /\
    StronglySorted biggest_first rows /\
    forall v, with_value v rows
              = with_value v [("/e/1", 5%Q); ("/e/2", 9%Q); ("/e/3", 5%Q); ("/e/4", 7%Q)].
Proof.
  apply (probe_sort_stable equal_sizes ["/e/1"; "/e/2"; "/e/3"; "/e/4"] "size" true).
  reflexivity.
Defined.

Example equal_sizes_sorted :
  _add_stat_properties equal_sizes ["/e/1"; "/e/2"; "/e/3"; "/e/4"] "size" true true
  = Ok [("/e/2", 9%Q); ("/e/4", 7%Q); ("/e/1", 5%Q); ("/e/3", 5%Q)].
Proof. reflexivity. Qed.

(** Interval 14, from an empty disk: the 15th launch finds 1 in the
    timer file and cleans. *)
Lemma countdown_any_interval_witness :
  timer_file (disk_before (fun _ => (two_games, two_games, 0%Q))
                (object 20 [full_clean "/g"]) 14 14 empty_disk) = Some (str 1) /\
  launch (fun _ => (two_games, two_games, 0%Q)) (object 20 [full_clean "/g"]) 14 14 empty_disk
  = cleaning two_games two_games 0 (object 20 [full_clean "/g"])
      (write_timer (disk_before (fun _ => (two_games, two_games, 0%Q))
                      (object 20 [full_clean "/g"]) 14 14 empty_disk) (str 14)).
Proof.
  destruct (countdown_any_interval (fun _ => (two_games, two_games, 0%Q))
              (object 20 [full_clean "/g"]) empty_disk 14 1 0 two_games two_games 0%Q)
    as [C _].
  - split; [lia|]. apply Z.lt_le_trans with (10 ^ 2); [reflexivity|].
    apply Z.pow_le_mono_r; lia.
  - reflexivity.
  - reflexivity.
  - reflexivity.
  - destruct (C eq_refl) as [F L]. split; [apply F; discriminate|exact L].
Defined.

(** The 6th launch finds 10 in the timer file and is postponed. *)
Example sixth_launch_postponed :
  launch (fun _ => (two_games, two_games, 0%Q)) (object 20 [full_clean "/g"]) 14 5 empty_disk
  = postponed_run (object 20 [full_clean "/g"])
      {| watchdirs_file := NoFile; timer_file := Some "10";
         report_file := [CleanSection [] 0] |} 10.
Proof. vm_compute. reflexivity. Qed.

(** An interval of 0: every launch cleans. *)
Lemma small_interval_always_cleans_witness :
  map postponed
    (fst (launches (fun _ => (two_games, two_games, 0%Q)) (object 20 [full_clean "/g"])
            0 0 3 empty_disk))
  = [false; false; false].
Proof.
  apply (small_interval_always_cleans (fun _ => (two_games, two_games, 0%Q))
           (object 20 [full_clean "/g"]) empty_disk 0 3).
  - lia.
  - reflexivity.
Defined.

Lemma watched_A_B_keys :
  NoDup (keys (watchdirs_content_set (init watched_A_B ["/A"; "/B"] 20 []))).
Proof.
  apply (init_well_formed watched_A_B ["/A"; "/B"] 20 []).
Qed.

(** [/A] held x and y and now holds x, y and z. *)
Lemma scan_reports_exact_difference_witness :
  exists new_content,
    scan_changes (init watched_A_B ["/A"; "/B"] 20 []) disk_with_A =
      (_write_watchdirs (init watched_A_B ["/A"; "/B"] 20 []) disk_with_A,
       Ok (match new_content with [] => NoNew | _ => NewFound new_content end)) /\
    dict_get "/A" new_content = Some (JArr [JStr "/A/z"]).
Proof.
  apply (scan_reports_exact_difference (init watched_A_B ["/A"; "/B"] 20 []) disk_with_A
           [("/A", JArr [JStr "/A/x"; JStr "/A/y"])] "/A" ["/A/x"; "/A/y"; "/A/z"]
           ["/A/x"; "/A/y"]).
  - reflexivity.
  - intros k v [E|[]]. inversion E. now exists ["/A/x"; "/A/y"].
  - exact watched_A_B_keys.
  - left. reflexivity.
  - reflexivity.
Defined.

(** A first launch on [sized_A_B], a second one that lists the same
    entries in another order. *)
Lemma scan_again_nothing_new_witness :
  scan_changes (init reordered_A_B ["/B"; "/A"] 20 [])
    (_write_watchdirs (init sized_A_B ["/A"; "/B"] 20 []) disk_with_A)
  = (_write_watchdirs (init reordered_A_B ["/B"; "/A"] 20 [])
       (_write_watchdirs (init sized_A_B ["/A"; "/B"] 20 []) disk_with_A), Ok NoNew).
Proof.
  apply (scan_again_nothing_new (init sized_A_B ["/A"; "/B"] 20 [])
           (init reordered_A_B ["/B"; "/A"] 20 []) disk_with_A _
           (NewFound [("/A", JArr [JStr "/A/z"]); ("/B", JStr new_directory_message)])).
  - apply init_well_formed.
  - apply init_well_formed.
  - intros key current G.
    destruct (String.eqb_spec key "/B") as [-> |DB].
    + vm_compute in G. inversion G; subst. eexists. split; [reflexivity|].
      intros x I. simpl in I. simpl. tauto.
    + destruct (String.eqb_spec key "/A") as [-> |DA].
      * vm_compute in G. inversion G; subst. eexists. split; [reflexivity|].
        intros x I. simpl in I. simpl. tauto.
      * exfalso. cbn in G.
        destruct (String.eqb_spec key "/B"); [contradiction|].
        destruct (String.eqb_spec key "/A"); [contradiction|]. discriminate.
  - reflexivity.
Defined.

(** The second launch stores the entries in its own order. *)
Example stored_file_reordered :
  watchdirs_file (_write_watchdirs (init sized_A_B ["/A"; "/B"] 20 []) disk_with_A)
  <> watchdirs_file (_write_watchdirs (init reordered_A_B ["/B"; "/A"] 20 []) disk_with_A).
Proof. vm_compute. discriminate. Qed.

(** The stored file holds a JSON list. *)
Lemma stored_scan_not_object_raises_witness :
  scan_changes (init watched_A_B ["/A"; "/B"] 20 []) disk_with_list
  = (disk_with_list, Raise TypeError).
Proof.
  apply (stored_scan_not_object_raises (init watched_A_B ["/A"; "/B"] 20 [])
           disk_with_list (JArr [JStr "/A/x"])).
  - reflexivity.
  - discriminate.
  - discriminate.
Defined.

(** One entry to keep among two files: the older one is removed. *)
Lemma cleaner_removes_only_children_witness :
  exists item,
    In item [keep_one "/g" []] /\
    In "/g/B" (glob two_games (path item)) /\
    ignored item "/g/B" = false /\
    (type_to_del item = "f" -> is_file two_games "/g/B" = true).
Proof.
  apply (cleaner_removes_only_children two_games two_games 0 (object 20 [keep_one "/g" []])
           empty_disk 14 "/g/B").
  left. reflexivity.
Defined.

Lemma full_cleaning_with_ignore_raises_witness :
  final_files_to_remove two_games 0 (full_clean_ignoring "/g" ["keepme"]) = Raise TypeError.
Proof.
  apply (full_cleaning_with_ignore_raises two_games 0 (full_clean_ignoring "/g" ["keepme"])).
  - simpl. lia.
  - reflexivity.
  - discriminate.
  - discriminate.
Defined.

Lemma ignore_is_substring_test_witness :
  exists final,
    final_files_to_remove three_games 0 (keep_one "/g" ["keep"; "/B"]) = Ok final /\
    forall p, In p final <->
      In p (map fst [("/g/A", 20%Q); ("/g/B", 10%Q)]) /\
      forall sub, In sub (ignore (keep_one "/g" ["keep"; "/B"])) -> ~ occurs sub p.
Proof.
  apply (ignore_is_substring_test three_games 0 (keep_one "/g" ["keep"; "/B"])).
  reflexivity.
Defined.

(** The substring [/B] spans the separator and the name: [/g/B] stays. *)
Example ignore_across_separator :
  final_files_to_remove three_games 0 (keep_one "/g" ["keep"; "/B"]) = Ok ["/g/A"].
Proof. reflexivity. Qed.

Lemma scan_effects_witness :
  timer_file (fst (scan watched_A_B (init watched_A_B ["/A"; "/B"] 20 []) disk_with_A))
    = timer_file disk_with_A /\
  report_file (fst (scan watched_A_B (init watched_A_B ["/A"; "/B"] 20 []) disk_with_list))
    = report_file disk_with_list.
Proof.
  split.
  - apply (scan_effects watched_A_B (init watched_A_B ["/A"; "/B"] 20 []) disk_with_A
             (fst (scan watched_A_B (init watched_A_B ["/A"; "/B"] 20 []) disk_with_A))
             (snd (scan watched_A_B (init watched_A_B ["/A"; "/B"] 20 []) disk_with_A))).
    reflexivity.
  - apply (proj2 (scan_effects watched_A_B (init watched_A_B ["/A"; "/B"] 20 [])
             disk_with_list _ (Raise TypeError) eq_refl)).
Defined.

(** One watched directory, the top 1 of two files. *)
Lemma single_directory_top_is_biggest_witness :
  exists rest : list row,
    _add_stat_properties equal_sizes ["/e/1"; "/e/2"; "/e/3"; "/e/4"] "size" true true
      = Ok ([("/e/2", 9%Q); ("/e/4", 7%Q)] ++ rest) /\
    StronglySorted biggest_first ([("/e/2", 9%Q); ("/e/4", 7%Q)] ++ rest) /\
    List.length [("/e/2", 9%Q); ("/e/4", 7%Q)]
      = Nat.min (Z.to_nat 2) (List.length ([("/e/2", 9%Q); ("/e/4", 7%Q)] ++ rest)) /\
    forall a b, In a [("/e/2", 9%Q); ("/e/4", 7%Q)] -> In b rest -> (snd b <= snd a)%Q.
Proof.
  apply (single_directory_top_is_biggest equal_sizes (init equal_sizes ["/e"] 2 []) "/e"
           ["/e/1"; "/e/2"; "/e/3"; "/e/4"]).
  - reflexivity.
  - reflexivity.
Defined.

(** A target measured at 100 bytes and then at 40. *)
Lemma count_erased_size_positions_witness :
  map fst [("/c", Diff (-60 # 1))] = map fst [("/c", 100%Q)] /\
  ((-60 # 1) == diff_sum [("/c", Diff (-60 # 1))])%Q.
Proof.
  destruct (count_erased_size_positions after_clean (object 20 [full_clean "/c"])
              [("/c", 100%Q)] (-60 # 1) [("/c", Diff (-60 # 1))] eq_refl) as [K [T _]].
  split; [exact K|exact T].
Defined.

Lemma unchanged_sizes_report_zero_witness :
  exists total positions,
    _count_erased_size before_clean (object 20 [full_clean "/c"]) [("/c", 100%Q)]
      = Ok (total, positions) /\
    (total == 0)%Q /\
    forall k p, In (k, p) positions -> exists d, p = Diff d /\ (d == 0)%Q.
Proof.
  apply (unchanged_sizes_report_zero before_clean (object 20 [full_clean "/c"])
           [("/c", 100%Q)]).
  reflexivity.
Defined.

Lemma failed_scan_blocks_cleaning_witness :
  main watched_A_B watched_A_B 0 ["/A"; "/B"] 20 [full_clean "/A"] 14 disk_with_list
  = (disk_with_list, [], Raise TypeError).
Proof.
  apply (failed_scan_blocks_cleaning watched_A_B watched_A_B 0 ["/A"; "/B"] 20
           [full_clean "/A"] 14 disk_with_list (JArr [JStr "/A/x"])).
  - reflexivity.
  - discriminate.
  - discriminate.
Defined.

(** A first launch: the scan finds no stored file, the cleaning runs. *)
Lemma main_notification_witness :
  exists report_scan total,
    snd (main two_games two_games 0 ["/g"] 20 [keep_one "/g" []] 14 empty_disk)
    = Ok [ScanNotice report_scan; CleanNotice total].
Proof.
  destruct (main_notification two_games two_games 0 ["/g"] 20 [keep_one "/g" []] 14
              empty_disk
              (fst (scan two_games (init two_games ["/g"] 20 [keep_one "/g" []]) empty_disk))
              (set_notify (init two_games ["/g"] 20 [keep_one "/g" []])
                 [ScanNotice WasNotFound]) eq_refl) as [report_scan [_ H]].
  exists report_scan. exact H.
Defined.

(** Files 5, 10, 31 and 40 days old and a limit of 30 days. *)
Lemma remove_older_on_files_witness :
  exists final,
    final_files_to_remove four_ages day_100 older_30 = Ok final /\
    forall p, In p final <->
      In p (first_filter four_ages older_30) /\ ignored older_30 p = false /\
      exists st_size st_mtime,
        stat four_ages p = Some (st_size, st_mtime) /\
        (st_mtime < day_100 - inject_Z (30 * 86400))%Q.
Proof.
  apply (remove_older_on_files four_ages day_100 older_30 30).
  - simpl. lia.
  - reflexivity.
  - lia.
  - vm_compute. discriminate.
  - reflexivity.
  - intros p I. vm_compute in I.
    repeat (destruct I as [<-|I]; [reflexivity|]). contradiction.
Defined.

(** Five files with distinct modification times and two to keep. *)
Lemma keep_count_on_files_witness :
  exists final,
    final_files_to_remove five_logs 0 keep_two = Ok final /\
    NoDup final /\
    incl final (first_filter five_logs keep_two) /\
    Z.of_nat (List.length final) = 3 /\
    (forall p q, In p final -> In q (first_filter five_logs keep_two) -> ~ In q final ->
       (mtime_of five_logs p < mtime_of five_logs q)%Q).
Proof.
  assert (F : first_filter five_logs keep_two = ["/l/1"; "/l/5"; "/l/3"; "/l/2"; "/l/4"])
    by reflexivity.
  destruct (keep_count_on_files five_logs 0 keep_two (mtime_of five_logs))
    as [final [H1 [H2 [H3 [_ [H5 H6]]]]]].
  - reflexivity.
  - reflexivity.
  - rewrite F. repeat constructor; simpl; intuition discriminate.
  - rewrite F. intros p I. simpl in I.
    repeat (destruct I as [<-|I]; [split; [reflexivity|eexists; reflexivity]|]).
    contradiction.
  - rewrite F. intros p q Ip Iq Ne E. simpl in Ip, Iq.
    repeat (destruct Ip as [<-|Ip]; [|]); try contradiction;
      repeat (destruct Iq as [<-|Iq]; [|]); try contradiction;
      try (now elim Ne); vm_compute in E; discriminate E.
  - exists final. split; [exact H1|]. split; [exact H2|]. split; [exact H3|].
    split; [|exact H6]. rewrite H5; rewrite F; [reflexivity|]. simpl. lia.
Defined.


(** The first launch on a directory of two files, one to keep. *)
Example first_launch :
  main two_games two_games 0 ["/g"] 20 [keep_one "/g" []] 14 empty_disk
  = ({| watchdirs_file := Json (JObj [("/g", JArr [JStr "/g/A"; JStr "/g/B"])]);
        timer_file := Some "14";
        report_file := [ScanSection WasNotFound 20 [("/g/A", 1%Q); ("/g/B", 1%Q)];
                        CleanSection [] 0%Q] |},
     ["/g/B"],
     Ok [ScanNotice WasNotFound; CleanNotice 0%Q]).
Proof. reflexivity. Qed.
